(** * ARP frame codec, passive monitor and reply listener of [module_arp.py]

    A shallow embedding of [parse_arp_frame], [transmit_arp_request_ipv4],
    the receive loop of [monitor] and the worker thread of
    [listen_for_arp_reply_ipv4], together with the properties the
    specification states about them. *)

From Stdlib Require Import ZArith QArith Lia DecimalString.
From Stdlib.Strings Require Import Ascii String Byte.
From stdpp Require Import base gmap list strings.

Local Open Scope string_scope.
Local Open Scope list_scope.
Local Open Scope Z_scope.

(** ** The Python fragment the module relies on *)

(** [bytes] objects. *)
Definition bytes := list byte.

(** The exception classes that matter here.  A constructor stands for its
    class and the subclasses an [except] clause of that class would catch. *)
Inductive exception :=
  | ValueError
  | IndexError
  | UnboundLocalError
  | OtherException (name : string).

(** Outcome of evaluating Python code that may raise. *)
Inductive result (A : Type) :=
  | Ok (a : A)
  | Raise (e : exception).
Arguments Ok {A} a.
Arguments Raise {A} e.

#[global] Instance exception_eq_dec : EqDecision exception.
Proof. solve_decision. Defined.
#[global] Instance result_eq_dec {A : Type} `{EqDecision A} : EqDecision (result A).
Proof. solve_decision. Defined.

#[global] Instance result_ret : MRet result := @Ok.
#[global] Instance result_bind : MBind result := fun A B k r =>
  match r with
  | Ok a => k a
  | Raise e => Raise e
  end.

(** [b[i:j]] for constant bounds [0 <= i <= j]: slicing never raises, it
    returns what is there. *)
Definition slice (i j : nat) (b : bytes) : bytes := take (j - i) (drop i b).

(** [b[i]] raises [IndexError] out of range, and yields an [int] in range. *)
Definition index (b : bytes) (i : nat) : result Z :=
  match b !! i with
  | Some x => Ok (Z.of_N (Byte.to_N x))
  | None => Raise IndexError
  end.

(** [int.from_bytes(b, 'big')]; the empty string gives 0. *)
Definition int_from_bytes_big (b : bytes) : Z :=
  fold_left (fun acc x => acc * 256 + Z.of_N (Byte.to_N x)) b 0.

(** [io.BytesIO]: the stream is the bytes not read yet; [read(n)] returns
    at most [n] of them, fewer at the end of the data, and never raises. *)
Definition BytesIO (frame : bytes) : bytes := frame.
Definition read (n : nat) (stream : bytes) : bytes * bytes :=
  (take n stream, drop n stream).

(** [bytes.fromhex]: pairs of hexadecimal digits, ASCII blanks skipped
    between the pairs; anything else is a [ValueError]. *)
Definition hex_value (c : ascii) : option N :=
  let n := N_of_ascii c in
  if ((48 <=? n) && (n <=? 57))%N then Some (n - 48)%N
  else if ((97 <=? n) && (n <=? 102))%N then Some (n - 87)%N
  else if ((65 <=? n) && (n <=? 70))%N then Some (n - 55)%N
  else None.

Definition is_blank (c : ascii) : bool :=
  let n := N_of_ascii c in
  ((n =? 32) || ((9 <=? n) && (n <=? 13)))%N.

Fixpoint bytes_fromhex (s : string) : result bytes :=
  match s with
  | EmptyString => Ok []
  | String c s1 =>
      if is_blank c then bytes_fromhex s1
      else
        match s1 with
        | EmptyString => Raise ValueError
        | String d s2 =>
            match hex_value c, hex_value d with
            | Some h, Some l =>
                match Byte.of_N (h * 16 + l) with
                | Some x => rest ← bytes_fromhex s2; Ok (x :: rest)
                | None => Raise ValueError
                end
            | _, _ => Raise ValueError
            end
        end
  end.

(** ** Collaborators that are not part of the module

    [module_arp.py] imports its address conversions from [utils] and uses
    [ipaddress.IPv4Address(...).packed] of the standard library.  Neither
    is part of the module, so both are parameters of the development.
    All of them may raise. *)
Class Collaborators := {
  mac_bytes_to_str : bytes → result string;
  mac_str_to_bytes : string → result bytes;
  ipv4_bytes_to_str : bytes → result string;
  ipv6_bytes_to_str : bytes → result string;
  IPv4Address_packed : string → result bytes;
}.

(** ** [logging.warn] and the decoder's monad

    [parse_arp_frame] logs a warning before each of its rejections.  The
    four messages are kept apart, with the values they interpolate. *)
Inductive warning :=
  | HTYPE_is_not_1
  | HLEN_HTYPE_mismatch (ARP_HLEN ARP_HTYPE : Z)
  | PTYPE_is_not_0x0800_or_0x86DD
  | PLEN_PTYPE_mismatch (ARP_PLEN ARP_PTYPE : Z).

(** A computation that logs warnings and then returns or raises. *)
Definition logged (A : Type) : Type := list warning * result A.

#[global] Instance logged_ret : MRet logged := fun A a => ([], Ok a).
#[global] Instance logged_bind : MBind logged := fun A B k m =>
  match m with
  | (w, Ok a) => let '(w', r) := k a in (w ++ w', r)
  | (w, Raise e) => (w, Raise e)
  end.

Definition warn (w : warning) : logged unit := ([w], Ok tt).
Definition raise {A : Type} (e : exception) : logged A := ([], Raise e).
Definition call {A : Type} (r : result A) : logged A := ([], r).

(** ** The decoder *)

(** The tuple [parse_arp_frame] returns, one field per component. *)
Record arp_frame := {
  ETH_DEST_MAC : string;
  ETH_SRC_MAC : string;
  ETH_TYPE : Z;
  ARP_HTYPE : Z;
  ARP_PTYPE : Z;
  ARP_HLEN : Z;
  ARP_PLEN : Z;
  ARP_OPER : Z;
  IP_PRO_VER : Z;
  IP_ADDR_LEN : Z;
  ARP_SHA_MAC_ADDR : string;
  ARP_SPA_PRO_ADDR : string;
  ARP_THA_MAC_ADDR : string;
  ARP_TPA_PRO_ADDR : string;
}.

(** One turn of a receive loop either goes on to the next turn or is left
    by an exception no handler of the loop catches. *)
Inductive turn (S : Type) :=
  | Continue (s : S)
  | Uncaught (e : exception).
Arguments Continue {S} s.
Arguments Uncaught {S} e.

(** [except ValueError:] as a test on the exception raised. *)
Definition except_ValueError (e : exception) : bool :=
  match e with
  | ValueError => true
  | _ => false
  end.

Section Codec.
Context `{Collaborators}.

Definition parse_arp_frame (frame : bytes) : logged arp_frame :=
  let stream := BytesIO frame in
  (* Ethernet header *)
  let '(eth_header, stream) := read 14 stream in
  ETH_DEST_MAC ← call (mac_bytes_to_str (slice 0 6 eth_header));
  ETH_SRC_MAC ← call (mac_bytes_to_str (slice 6 12 eth_header));
  let ETH_TYPE := int_from_bytes_big (slice 12 14 eth_header) in
  (* ARP header *)
  let '(arp_header, stream) := read 8 stream in
  let ARP_HTYPE := int_from_bytes_big (slice 0 2 arp_header) in
  let ARP_PTYPE := int_from_bytes_big (slice 2 4 arp_header) in
  ARP_HLEN ← call (index arp_header 4);
  ARP_PLEN ← call (index arp_header 5);
  let ARP_OPER := int_from_bytes_big (slice 6 8 arp_header) in
  (if decide (ARP_HTYPE ≠ 1)
   then warn HTYPE_is_not_1;; raise ValueError
   else mret tt);;
  (if decide (ARP_HLEN ≠ 6)
   then warn (HLEN_HTYPE_mismatch ARP_HLEN ARP_HTYPE);; raise ValueError
   else mret tt);;
  '(IP_PRO_VER, IP_ADDR_LEN) ←
    (if decide (ARP_PTYPE = 0x0800) then mret (4, 4)
     else if decide (ARP_PTYPE = 0x86DD) then mret (6, 16)
     else warn PTYPE_is_not_0x0800_or_0x86DD;; raise ValueError);
  (if decide (ARP_PLEN ≠ IP_ADDR_LEN)
   then warn (PLEN_PTYPE_mismatch ARP_PLEN ARP_PTYPE);; raise ValueError
   else mret tt);;
  (* Sender addresses *)
  let '(arp_sender_addresses, stream) := read (Z.to_nat (6 + IP_ADDR_LEN)) stream in
  ARP_SHA_MAC_ADDR ← call (mac_bytes_to_str (slice 0 6 arp_sender_addresses));
  (* Target addresses *)
  let '(arp_target_addresses, stream) := read (Z.to_nat (6 + IP_ADDR_LEN)) stream in
  ARP_THA_MAC_ADDR ← call (mac_bytes_to_str (slice 0 6 arp_target_addresses));
  '(ARP_SPA_PRO_ADDR, ARP_TPA_PRO_ADDR) ←
    (if decide (IP_PRO_VER = 4) then
       spa ← call (ipv4_bytes_to_str (slice 6 10 arp_sender_addresses));
       tpa ← call (ipv4_bytes_to_str (slice 6 10 arp_target_addresses));
       mret (spa, tpa)
     else if decide (IP_PRO_VER = 6) then
       spa ← call (ipv6_bytes_to_str (slice 6 22 arp_sender_addresses));
       tpa ← call (ipv6_bytes_to_str (slice 6 22 arp_target_addresses));
       mret (spa, tpa)
     else raise UnboundLocalError);
  mret {| ETH_DEST_MAC := ETH_DEST_MAC; ETH_SRC_MAC := ETH_SRC_MAC;
          ETH_TYPE := ETH_TYPE; ARP_HTYPE := ARP_HTYPE;
          ARP_PTYPE := ARP_PTYPE; ARP_HLEN := ARP_HLEN;
          ARP_PLEN := ARP_PLEN; ARP_OPER := ARP_OPER;
          IP_PRO_VER := IP_PRO_VER; IP_ADDR_LEN := IP_ADDR_LEN;
          ARP_SHA_MAC_ADDR := ARP_SHA_MAC_ADDR;
          ARP_SPA_PRO_ADDR := ARP_SPA_PRO_ADDR;
          ARP_THA_MAC_ADDR := ARP_THA_MAC_ADDR;
          ARP_TPA_PRO_ADDR := ARP_TPA_PRO_ADDR |}.

(** ** The encoder *)

(** What [transmit_arp_request_ipv4] does to the outside: one
    [sock.send(frame)] on a socket bound to [interface].  The result is the
    frame handed to [sock.send], or the exception of the conversion that
    kept the function from building it.  [socket.socket], [sock.bind],
    [sock.send] and [sock.close] are left to the environment, and so are
    the errors they can raise: [Ok] says what is sent when these calls
    succeed, and nothing is said here of a run in which one of them
    fails. *)
Inductive transmission := Send (interface : string) (frame : bytes).

Definition transmit_arp_request_ipv4
    (interface target_ip source_mac source_ip : string) : result transmission :=
  (* Ethernet header *)
  dst ← mac_str_to_bytes "ff:ff:ff:ff:ff:ff";
  src ← mac_str_to_bytes source_mac;
  ethertype ← bytes_fromhex "0806";
  let eth_header := (dst ++ src) ++ ethertype in
  (* ARP header *)
  HTYPE ← bytes_fromhex "0001";
  PTYPE ← bytes_fromhex "0800";
  HLEN ← bytes_fromhex "06";
  PLEN ← bytes_fromhex "04";
  OPER ← bytes_fromhex "0001";
  let arp_header := (((HTYPE ++ PTYPE) ++ HLEN) ++ PLEN) ++ OPER in
  (* Sender addresses *)
  SHA ← mac_str_to_bytes source_mac;
  SPA ← IPv4Address_packed source_ip;
  (* Target addresses *)
  THA ← bytes_fromhex "000000000000";
  TPA ← IPv4Address_packed target_ip;
  let arp_payload := ((SHA ++ SPA) ++ THA) ++ TPA in
  let frame := (eth_header ++ arp_header) ++ arp_payload in
  Ok (Send interface frame).

(** ** The passive monitor *)

(** A value of the [seen_hosts] dictionary.  [last_seen] is a reading of
    [time.time()], a finite float and as such a rational number. *)
Record host := {
  mac : string;
  count : Z;
  last_seen : Q;
}.

(** The two lines the receive loop prints. *)
Inductive line :=
  | REQUEST (src dst tpa : string) (ver : Z)
  | REPLY (src dst spa sha : string) (ver : Z).

Record monitor_state := {
  seen_hosts : gmap string host;
  stdout : list line;
}.

(** One turn of the [while True] loop of [monitor], for the frame that
    [sock.recv] returned and the reading [now] that [time.time()] gives in
    this turn. *)
Definition monitor_turn (st : monitor_state) (frame : bytes) (now : Q)
    : turn monitor_state :=
  match parse_arp_frame frame with
  | (_, Raise e) => if except_ValueError e then Continue st else Uncaught e
  | (_, Ok f) =>
      if decide (ARP_OPER f = 1) then
        Continue {| seen_hosts := seen_hosts st;
                    stdout := stdout st ++
                      [REQUEST (ETH_SRC_MAC f) (ETH_DEST_MAC f)
                               (ARP_TPA_PRO_ADDR f) (IP_PRO_VER f)] |}
      else if decide (ARP_OPER f = 2) then
        let out := stdout st ++
                     [REPLY (ETH_SRC_MAC f) (ETH_DEST_MAC f) (ARP_SPA_PRO_ADDR f)
                            (ARP_SHA_MAC_ADDR f) (IP_PRO_VER f)] in
        match seen_hosts st !! ARP_SPA_PRO_ADDR f with
        | Some old =>
            Continue {| seen_hosts :=
                          <[ARP_SPA_PRO_ADDR f :=
                              {| mac := ARP_SHA_MAC_ADDR f;
                                 count := count old + 1;
                                 last_seen := now |}]> (seen_hosts st);
                        stdout := out |}
        | None =>
            Continue {| seen_hosts :=
                          <[ARP_SPA_PRO_ADDR f :=
                              {| mac := ARP_SHA_MAC_ADDR f;
                                 count := 1;
                                 last_seen := now |}]> (seen_hosts st);
                        stdout := out |}
        end
      else Continue st
  end.

(** The loop over the frames received until the run is interrupted, or
    until a turn is left by an uncaught exception, which ends the run
    with the state reached so far. *)
Fixpoint monitor_loop (st : monitor_state) (received : list (bytes * Q))
    : monitor_state * option exception :=
  match received with
  | [] => (st, None)
  | (frame, now) :: rest =>
      match monitor_turn st frame now with
      | Continue st' => monitor_loop st' rest
      | Uncaught e => (st, Some e)
      end
  end.

Definition monitor (received : list (bytes * Q)) : monitor_state * option exception :=
  monitor_loop {| seen_hosts := ∅; stdout := [] |} received.

(** ** The reply listener *)

(** One turn of the worker's loop once [sock.recv] has returned [frame]. *)
Definition listener_turn (target_mac : string)
    (responses : list (string * string)) (frame : bytes)
    : turn (list (string * string)) :=
  match parse_arp_frame frame with
  | (_, Raise e) => if except_ValueError e then Continue responses else Uncaught e
  | (_, Ok f) =>
      if decide (ARP_OPER f ≠ 2) then Continue responses
      else if decide (ETH_DEST_MAC f ≠ target_mac) then Continue responses
      else Continue (responses ++ [(ARP_SPA_PRO_ADDR f, ARP_SHA_MAC_ADDR f)])
  end.

(** The worker thread and the caller of [stop], interleaved.  The worker
    is at one of the points of [thread()]; the caller has not called
    [stop] yet, is inside [stop] after [should_stop.set()] and waiting in
    [thr.join()], or has got [responses] back from [stop]. *)
Inductive worker :=
  | Starting
  | LoopHead
  | Receiving
  | Returned
  | Died (e : exception).

Inductive caller :=
  | BeforeStop
  | Joining
  | AfterStop.

(** [responses] is the one list object the worker appends to and [stop]
    returns: the caller holds a reference to it, not a copy. *)
Record session := {
  should_stop : bool;
  responses : list (string * string);
  thread : worker;
  main : caller;
}.

Definition listen_for_arp_reply_ipv4 : session :=
  {| should_stop := false; responses := []; thread := Starting; main := BeforeStop |}.

Definition terminated (w : worker) : bool :=
  match w with
  | Returned | Died _ => true
  | _ => false
  end.

Inductive step (target_mac : string) : session → session → Prop :=
  (* the worker opens and binds its socket, or fails to *)
  | step_socket s :
      thread s = Starting →
      step target_mac s
        {| should_stop := should_stop s; responses := responses s;
           thread := LoopHead; main := main s |}
  | step_socket_error s e :
      thread s = Starting →
      step target_mac s
        {| should_stop := should_stop s; responses := responses s;
           thread := Died e; main := main s |}
  (* if should_stop.is_set(): return *)
  | step_is_set s :
      thread s = LoopHead →
      step target_mac s
        {| should_stop := should_stop s; responses := responses s;
           thread := if should_stop s then Returned else Receiving;
           main := main s |}
  (* sock.recv raises BlockingIOError: continue *)
  | step_recv_nothing s :
      thread s = Receiving →
      step target_mac s
        {| should_stop := should_stop s; responses := responses s;
           thread := LoopHead; main := main s |}
  (* sock.recv raises something else *)
  | step_recv_error s e :
      thread s = Receiving →
      step target_mac s
        {| should_stop := should_stop s; responses := responses s;
           thread := Died e; main := main s |}
  (* sock.recv returns a frame, which the rest of the turn handles *)
  | step_recv_frame s frame :
      thread s = Receiving →
      step target_mac s
        match listener_turn target_mac (responses s) frame with
        | Continue r =>
            {| should_stop := should_stop s; responses := r;
               thread := LoopHead; main := main s |}
        | Uncaught e =>
            {| should_stop := should_stop s; responses := responses s;
               thread := Died e; main := main s |}
        end
  (* stop(): should_stop.set() *)
  | step_set s :
      main s ≠ Joining →
      step target_mac s
        {| should_stop := true; responses := responses s;
           thread := thread s; main := Joining |}
  (* stop(): thr.join() returns once the thread has ended; return responses *)
  | step_join s :
      main s = Joining →
      terminated (thread s) = true →
      step target_mac s
        {| should_stop := should_stop s; responses := responses s;
           thread := thread s; main := AfterStop |}.

(** Runs of the session: any number of steps, in any interleaving. *)
Definition steps (target_mac : string) : session → session → Prop :=
  rtc (step target_mac).

(** ** Notions the properties are stated with *)

(** The contract the decoder needs of [mac_bytes_to_str]: a hardware
    address of six bytes can be written out. *)
Definition formats_hardware_addresses : Prop :=
  ∀ b : bytes, length b = 6%nat → ∃ s, mac_bytes_to_str b = Ok s.

(** An exception some address conversion raised on some bytes. *)
Definition raised_by_conversion (e : exception) : Prop :=
  ∃ b : bytes,
    mac_bytes_to_str b = Raise e ∨ ipv4_bytes_to_str b = Raise e ∨
    ipv6_bytes_to_str b = Raise e.

(** A valid hardware address text: it converts to six bytes, which convert
    back to the same text.  Likewise for an IPv4 address and four bytes. *)
Definition valid_hardware_address (text : string) : Prop :=
  ∃ b : bytes,
    mac_str_to_bytes text = Ok b ∧ length b = 6%nat ∧ mac_bytes_to_str b = Ok text.

Definition valid_ipv4_address (text : string) : Prop :=
  ∃ b : bytes,
    IPv4Address_packed text = Ok b ∧ length b = 4%nat ∧ ipv4_bytes_to_str b = Ok text.

(** The encoder's destination constant converts to some six bytes. *)
Definition converts_broadcast : Prop :=
  ∃ b : bytes, mac_str_to_bytes "ff:ff:ff:ff:ff:ff" = Ok b ∧ length b = 6%nat.

(** [frame] decodes to a reply whose sender protocol address is [addr]. *)
Definition reply_from (addr : string) (frame : bytes) : bool :=
  match parse_arp_frame frame with
  | (_, Ok f) => bool_decide (ARP_OPER f = 2 ∧ ARP_SPA_PRO_ADDR f = addr)
  | (_, Raise _) => false
  end.

(** The number of such replies among the frames received. *)
Fixpoint replies_from (addr : string) (received : list (bytes * Q)) : Z :=
  match received with
  | [] => 0
  | (frame, _) :: rest =>
      (if reply_from addr frame then 1 else 0) + replies_from addr rest
  end.

(** The count the map holds for [addr], 0 when it holds none. *)
Definition count_of (st : monitor_state) (addr : string) : Z :=
  match seen_hosts st !! addr with
  | Some h => count h
  | None => 0
  end.

(** Every entry has been counted at least once. *)
Definition counted (st : monitor_state) : Prop :=
  ∀ addr h, seen_hosts st !! addr = Some h → 1 ≤ count h.

(** What holds at every point of a session. *)
Definition settled (s : session) : Prop :=
  (main s ≠ BeforeStop → should_stop s = true) ∧
  (main s = AfterStop → terminated (thread s) = true) ∧
  (thread s = Returned → should_stop s = true).

(** ** The prober's transmit loop *)

(** The [for host in hosts] loop of [probe]: one request for each host, in
    the order of [hosts], from [tx_mac_address] and the unspecified address
    0.0.0.0.  [hosts] holds the texts [str(host)].  The result is what was
    sent, and the exception that ended the loop if one did, which [probe]
    does not catch.  The progress bar and the pause between two requests
    are left out, and with the pause an exception [time.sleep] raises on a
    negative [wait_time]; so are the errors of the socket calls.  Of a run
    of the source that one of these ends early, the requests sent are the
    first of those given here. *)
Fixpoint probe_transmit (interface tx_mac_address : string) (hosts : list string)
    : list transmission * option exception :=
  match hosts with
  | [] => ([], None)
  | host :: rest =>
      match transmit_arp_request_ipv4 interface host tx_mac_address "0.0.0.0" with
      | Ok sent =>
          let '(more, e) := probe_transmit interface tx_mac_address rest in
          (sent :: more, e)
      | Raise e => ([], Some e)
      end
  end.

End Codec.

(** ** A model of the collaborators

    The conversions of [utils] are defined outside [module_arp.py].  The
    properties below hold for any conversions; to evaluate the decoder on
    concrete frames, one instance is fixed here.  It writes and reads the
    text forms the specification shows, [xx:xx:xx:xx:xx:xx] in lower-case
    hexadecimal for a hardware address and dotted decimal ([10.0.0.2]) for
    an IPv4 address, byte by byte, for as many bytes as it is given. *)

Definition hex_digit (n : N) : ascii :=
  ascii_of_N (if (n <? 10)%N then n + 48 else n + 87)%N.

Definition byte_to_hex (x : byte) : string :=
  let n := Byte.to_N x in
  String (hex_digit (n / 16)) (String (hex_digit (n mod 16)) EmptyString).

Definition byte_to_decimal (x : byte) : string :=
  NilZero.string_of_uint (N.to_uint (Byte.to_N x)).

Fixpoint remove_char (c : ascii) (s : string) : string :=
  match s with
  | EmptyString => EmptyString
  | String d s' =>
      if Ascii.eqb d c then remove_char c s' else String d (remove_char c s')
  end.

Fixpoint split_on (sep : ascii) (s : string) : list string :=
  match s with
  | EmptyString => [EmptyString]
  | String c s' =>
      if Ascii.eqb c sep then EmptyString :: split_on sep s'
      else
        match split_on sep s' with
        | [] => [String c EmptyString]
        | w :: ws => String c w :: ws
        end
  end.

Fixpoint pair_up (l : list string) : list string :=
  match l with
  | a :: b :: rest => (a ++ b)%string :: pair_up rest
  | _ => l
  end.

Definition parse_octet (s : string) : option byte :=
  if (3 <? String.length s)%nat then None
  else
    match s with
    | String "0" (String _ _) => None
    | _ =>
        match NilZero.uint_of_string s with
        | Some u => Byte.of_N (N.of_uint u)
        | None => None
        end
    end.

(** Modelled from the spec: [utils.mac_bytes_to_str] is missing.  The
    specification writes hardware addresses as [02:00:00:00:00:01]: two
    lower-case hexadecimal digits a byte, colons between the bytes. *)
Definition plain_mac_bytes_to_str (b : bytes) : result string :=
  Ok (String.concat ":" (map byte_to_hex b)).

(** Modelled from the spec: [utils.mac_str_to_bytes] is missing.  It reads
    the form [xx:xx:xx:xx:xx:xx] the specification gives for a hardware
    address: the hexadecimal digits between the colons, as [bytes.fromhex]
    reads them. *)
Definition plain_mac_str_to_bytes (s : string) : result bytes :=
  bytes_fromhex (remove_char ":" s).

(** Modelled from the spec: [utils.ipv4_bytes_to_str] is missing.  The
    specification writes IPv4 addresses in dotted decimal, [10.0.0.2]. *)
Definition plain_ipv4_bytes_to_str (b : bytes) : result string :=
  Ok (String.concat "." (map byte_to_decimal b)).

(** Modelled from the spec: [utils.ipv6_bytes_to_str] is missing, and the
    specification shows no IPv6 address in text; the bytes are written in
    hexadecimal, a colon after every second one. *)
Definition plain_ipv6_bytes_to_str (b : bytes) : result string :=
  Ok (String.concat ":" (pair_up (map byte_to_hex b))).

(** [ipaddress.IPv4Address(s).packed] of the standard library: four decimal
    octets of at most three digits, without leading zeros, each at most
    255, give four bytes; anything else is an [AddressValueError], a
    [ValueError]. *)
Definition plain_IPv4Address_packed (s : string) : result bytes :=
  match map parse_octet (split_on "." s) with
  | [Some a; Some b; Some c; Some d] => Ok [a; b; c; d]
  | _ => Raise ValueError
  end.

(** Modelled from the spec: the collaborators, with the conversions above
    standing for the missing ones of [utils]. *)
Definition plain : Collaborators := {|
  mac_bytes_to_str := plain_mac_bytes_to_str;
  mac_str_to_bytes := plain_mac_str_to_bytes;
  ipv4_bytes_to_str := plain_ipv4_bytes_to_str;
  ipv6_bytes_to_str := plain_ipv6_bytes_to_str;
  IPv4Address_packed := plain_IPv4Address_packed;
|}.

(** ** The specification's view of a frame and of a rejection *)

(** The header fields as the decoder reads them off the wire: the first
    [read] gives the Ethernet header, the second the ARP header. *)
Definition eth_header_of (frame : bytes) : bytes :=
  fst (read 14 (BytesIO frame)).
Definition arp_header_of (frame : bytes) : bytes :=
  fst (read 8 (snd (read 14 (BytesIO frame)))).

Definition wire_ETH_TYPE (frame : bytes) : Z :=
  int_from_bytes_big (slice 12 14 (eth_header_of frame)).
Definition wire_HTYPE (frame : bytes) : Z :=
  int_from_bytes_big (slice 0 2 (arp_header_of frame)).
Definition wire_PTYPE (frame : bytes) : Z :=
  int_from_bytes_big (slice 2 4 (arp_header_of frame)).
Definition wire_HLEN (frame : bytes) : result Z := index (arp_header_of frame) 4.
Definition wire_PLEN (frame : bytes) : result Z := index (arp_header_of frame) 5.
Definition wire_OPER (frame : bytes) : Z :=
  int_from_bytes_big (slice 6 8 (arp_header_of frame)).

(** The error taxonomy of the specification. *)
Inductive DecodeError :=
  | Truncated
  | UnsupportedHardwareType
  | UnsupportedProtocolType
  | LengthMismatch.

(** The specification's name for a failed decode.  The decoder raises a
    bare [ValueError] at four places, told apart by the warning logged just
    before; the specification names these four.  No [raise] of the decoder
    answers to [Truncated]. *)
Definition decode_error (outcome : logged arp_frame) : option DecodeError :=
  match outcome with
  | ([HTYPE_is_not_1], Raise ValueError) => Some UnsupportedHardwareType
  | ([HLEN_HTYPE_mismatch _ _], Raise ValueError) => Some LengthMismatch
  | ([PTYPE_is_not_0x0800_or_0x86DD], Raise ValueError) => Some UnsupportedProtocolType
  | ([PLEN_PTYPE_mismatch _ _], Raise ValueError) => Some LengthMismatch
  | _ => None
  end.

(** The header checks of the decoding algorithm, steps 3 to 6, as the
    specification words them: the first check that fails names the error. *)
Definition header_check (frame : bytes) : option DecodeError :=
  if decide (wire_HTYPE frame ≠ 1) then Some UnsupportedHardwareType
  else if decide (wire_HLEN frame ≠ Ok 6) then Some LengthMismatch
  else if decide (wire_PTYPE frame = 0x0800) then
    if decide (wire_PLEN frame ≠ Ok 4) then Some LengthMismatch else None
  else if decide (wire_PTYPE frame = 0x86DD) then
    if decide (wire_PLEN frame ≠ Ok 16) then Some LengthMismatch else None
  else Some UnsupportedProtocolType.

(** [frame] with its ethertype field and its operation field overwritten. *)
Definition with_ethertype_and_operation (ethertype oper frame : bytes) : bytes :=
  take 12 frame ++ ethertype ++ slice 14 20 frame ++ oper ++ drop 22 frame.

(** The same outcome, the two fields of a decoded frame set anew. *)
Definition retagged (ethertype oper : Z) (outcome : logged arp_frame)
    : logged arp_frame :=
  match outcome with
  | (w, Ok r) =>
      (w, Ok {| ETH_DEST_MAC := ETH_DEST_MAC r; ETH_SRC_MAC := ETH_SRC_MAC r;
                ETH_TYPE := ethertype; ARP_HTYPE := ARP_HTYPE r;
                ARP_PTYPE := ARP_PTYPE r; ARP_HLEN := ARP_HLEN r;
                ARP_PLEN := ARP_PLEN r; ARP_OPER := oper;
                IP_PRO_VER := IP_PRO_VER r; IP_ADDR_LEN := IP_ADDR_LEN r;
                ARP_SHA_MAC_ADDR := ARP_SHA_MAC_ADDR r;
                ARP_SPA_PRO_ADDR := ARP_SPA_PRO_ADDR r;
                ARP_THA_MAC_ADDR := ARP_THA_MAC_ADDR r;
                ARP_TPA_PRO_ADDR := ARP_TPA_PRO_ADDR r |})
  | (w, Raise e) => (w, Raise e)
  end.

(** ** Frames to try the properties on *)

(** Frames written in hexadecimal, as on the wire. *)
Definition hex (s : string) : bytes :=
  match bytes_fromhex s with
  | Ok b => b
  | Raise _ => []
  end.

(** The request of the specification's scenario: 02:00:00:00:00:01 at
    10.0.0.1 asks for 10.0.0.2. *)
Definition scenario_request : bytes :=
  hex "ffffffffffff 020000000001 0806 0001 0800 06 04 0001 020000000001 0a000001 000000000000 0a000002".

(** A reply to it: 10.0.0.2 is at 02:00:00:00:00:02. *)
Definition scenario_reply : bytes :=
  hex "020000000001 020000000002 0806 0001 0800 06 04 0002 020000000002 0a000002 020000000001 0a000001".

(** A frame that ends with its Ethernet header. *)
Definition ethernet_header_only : bytes :=
  hex "ffffffffffff 020000000001 0806".

(** A frame that ends with its ARP header, hardware type 2. *)
Definition arp_header_only_htype_2 : bytes :=
  hex "ffffffffffff 020000000001 0806 0002 0800 06 04 0001".

(** The scenario's request without its last byte. *)
Definition request_cut_short : bytes := take 41 scenario_request.

(** The reply cut after its two address-length bytes, and the rest of it. *)
Definition reply_head : bytes := take 20 scenario_reply.
Definition reply_rest : bytes := drop 20 scenario_reply.

(** An IPv6 reply: 2001:db8::2 is at 02:00:00:00:00:02. *)
Definition ipv6_reply : bytes :=
  hex "020000000001 020000000002 0806 0001 86dd 06 10 0002 020000000002 20010db8000000000000000000000002 020000000001 20010db8000000000000000000000001".

(** A frame that ends with its ARP header, hardware address length 8. *)
Definition arp_header_only_hlen_8 : bytes :=
  hex "ffffffffffff 020000000001 0806 0001 0800 08 04 0001".

(** A frame that ends with its hardware-type field, hardware type 2. *)
Definition hardware_type_2_only : bytes :=
  hex "ffffffffffff 020000000001 0806 0002".

(** A frame that ends with its hardware-address-length byte: hardware type
    1, protocol type 0x0806, hardware address length 6. *)
Definition protocol_type_0806_cut : bytes :=
  hex "ffffffffffff 020000000001 0806 0001 0806 06".

(** The scenario's request padded to the 60 bytes of a minimal Ethernet
    frame. *)
Definition padded_request : bytes :=
  scenario_request ++ hex "000000000000000000000000000000000000".

(** The prober's request for 10.0.0.2, from 02:00:00:00:00:01 and the
    unspecified address 0.0.0.0. *)
Definition probe_request_for_10_0_0_2 : bytes :=
  hex "ffffffffffff 020000000001 0806 0001 0800 06 04 0001 020000000001 00000000 000000000000 0a000002".

(** A monitor that has seen 10.0.0.2 once. *)
Definition seen_once : monitor_state :=
  {| seen_hosts :=
       {["10.0.0.2" :=
           {| mac := "02:00:00:00:00:02"; count := 1; last_seen := 1%Q |}]};
     stdout := [] |}.

(** A listener session: the worker has opened its socket, found the stop
    signal clear and taken in the scenario's reply. *)
Definition session_after_one_reply : session :=
  {| should_stop := false;
     responses := [("10.0.0.2", "02:00:00:00:00:02")];
     thread := LoopHead; main := BeforeStop |}.

(** A listener session whose worker has returned from its loop: [stop] set
    the signal, the worker opened its socket and found the signal set. *)
Definition session_returned : session :=
  {| should_stop := true; responses := []; thread := Returned; main := Joining |}.

(** A listener session in which [stop] has just set the signal. *)
Definition session_in_stop : session :=
  {| should_stop := true; responses := []; thread := Starting; main := Joining |}.

(** A listener session whose worker found the stop signal clear and was then
    ended by an [OSError] of [sock.recv], before [stop] was called. *)
Definition session_worker_died : session :=
  {| should_stop := false; responses := [];
     thread := Died (OtherException "OSError"); main := BeforeStop |}.

(** The same session once [stop] has been called and has returned. *)
Definition session_stopped_after_death : session :=
  {| should_stop := true; responses := [];
     thread := Died (OtherException "OSError"); main := AfterStop |}.

(** The specification's account of [stop], in its words: [stop] blocks
    until the receive loop has observed the stop signal and exited, so that
    whenever [stop] has returned the worker has left its loop by the
    [return] behind the test of the signal. *)
Definition stop_waits_for_the_loop `{Collaborators} (target_mac : string) : Prop :=
  ∀ s, steps target_mac listen_for_arp_reply_ipv4 s →
       main s = AfterStop → thread s = Returned.

(** * Properties *)

(** ** The decoder's monad *)

Lemma bind_ret {A B : Type} (a : A) (k : A → logged B) : mret a ≫= k = k a.
Proof. unfold mret, mbind, logged_ret, logged_bind. by destruct (k a). Qed.

Lemma bind_call_Ok {A B : Type} (a : A) (k : A → logged B) :
  call (Ok a) ≫= k = k a.
Proof. unfold call, mbind, logged_bind. by destruct (k a). Qed.

Lemma bind_call_Raise {A B : Type} (e : exception) (k : A → logged B) :
  call (Raise e) ≫= k = ([], Raise e).
Proof. reflexivity. Qed.

Lemma bind_reject {A B : Type} (w : warning) (e : exception) (k : A → logged B) :
  (warn w;; raise e) ≫= k = ([w], Raise e).
Proof. reflexivity. Qed.

Lemma bind_assoc {A B C : Type} (m : logged A) (f : A → logged B) (g : B → logged C) :
  (m ≫= f) ≫= g = m ≫= (λ a, f a ≫= g).
Proof.
  unfold mbind, logged_bind. destruct m as [w [a|e]]; [|done].
  destruct (f a) as [w1 [b|e]]; [|done].
  destruct (g b) as [w2 r]. by rewrite app_assoc.
Qed.

Lemma bind_ext {A B : Type} (m : logged A) (k1 k2 : A → logged B) :
  (∀ a, k1 a = k2 a) → m ≫= k1 = m ≫= k2.
Proof.
  intros E. unfold mbind, logged_bind. destruct m as [w [a|e]]; [|done].
  by rewrite E.
Qed.

Section CodecProperties.
Context `{Collaborators}.

(** *** The header stage *)

(** Bring the wire fields, in the goal and in the hypotheses, to the
    expressions the decoder computes them by. *)
Ltac wire_fields :=
  cbv [wire_ETH_TYPE wire_HTYPE wire_PTYPE wire_HLEN wire_PLEN wire_OPER
       arp_header_of eth_header_of read BytesIO fst snd slice] in *;
  cbn [take drop Nat.sub] in *.

(** Expose the first twenty bytes of [frame] and run the decoder up to
    its first check. *)
Ltac enter_header frame Hlen Hmac :=
  do 20 (destruct frame as [|? frame]; [simpl in Hlen; lia|]);
  unfold parse_arp_frame; wire_fields;
  cbn [index lookup list_lookup] in *;
  repeat match goal with
    | |- context [call (mac_bytes_to_str ?l) ≫= _] =>
        let s := fresh "s" in
        let E := fresh "E" in
        destruct (Hmac l eq_refl) as [s E]; rewrite E, bind_call_Ok
    end;
  rewrite !bind_call_Ok.

Lemma reject_HTYPE frame :
  (20 ≤ length frame)%nat → formats_hardware_addresses →
  wire_HTYPE frame ≠ 1 →
  parse_arp_frame frame = ([HTYPE_is_not_1], Raise ValueError).
Proof.
  intros Hlen Hmac Hh. enter_header frame Hlen Hmac.
  destruct (decide (_ ≠ 1)); [|done]. by rewrite bind_reject.
Qed.

Lemma reject_HLEN frame hlen :
  (20 ≤ length frame)%nat → formats_hardware_addresses →
  wire_HTYPE frame = 1 → wire_HLEN frame = Ok hlen → hlen ≠ 6 →
  parse_arp_frame frame = ([HLEN_HTYPE_mismatch hlen 1], Raise ValueError).
Proof.
  intros Hlen Hmac Hh Hl Hne. enter_header frame Hlen Hmac.
  injection Hl as Hl. rewrite Hh, Hl.
  destruct (decide (1 ≠ 1)); [done|]. rewrite bind_ret.
  destruct (decide (hlen ≠ 6)); [|done]. by rewrite bind_reject.
Qed.

Lemma reject_PTYPE frame :
  (20 ≤ length frame)%nat → formats_hardware_addresses →
  wire_HTYPE frame = 1 → wire_HLEN frame = Ok 6 →
  wire_PTYPE frame ≠ 0x0800 → wire_PTYPE frame ≠ 0x86DD →
  parse_arp_frame frame = ([PTYPE_is_not_0x0800_or_0x86DD], Raise ValueError).
Proof.
  intros Hlen Hmac Hh Hl Hp4 Hp6. enter_header frame Hlen Hmac.
  injection Hl as Hl. rewrite Hh, Hl.
  destruct (decide (1 ≠ 1)); [done|]. rewrite bind_ret.
  destruct (decide (6 ≠ 6)); [done|]. rewrite bind_ret.
  destruct (decide (_ = 2048)); [done|].
  destruct (decide (_ = 34525)); [done|]. by rewrite bind_reject.
Qed.

Lemma reject_PLEN frame plen width :
  (20 ≤ length frame)%nat → formats_hardware_addresses →
  wire_HTYPE frame = 1 → wire_HLEN frame = Ok 6 →
  (wire_PTYPE frame = 0x0800 ∧ width = 4 ∨ wire_PTYPE frame = 0x86DD ∧ width = 16) →
  wire_PLEN frame = Ok plen → plen ≠ width →
  parse_arp_frame frame =
    ([PLEN_PTYPE_mismatch plen (wire_PTYPE frame)], Raise ValueError).
Proof.
  intros Hlen Hmac Hh Hl Hp Hpl Hne. enter_header frame Hlen Hmac.
  injection Hl as Hl. injection Hpl as Hpl. rewrite Hh, Hl, Hpl.
  destruct (decide (1 ≠ 1)); [done|]. rewrite bind_ret.
  destruct (decide (6 ≠ 6)); [done|]. rewrite bind_ret.
  destruct Hp as [[Hp ->]|[Hp ->]]; rewrite Hp.
  - destruct (decide (2048 = 2048)); [|done]. rewrite bind_ret.
    destruct (decide (plen ≠ 4)); [|done]. by rewrite bind_reject.
  - destruct (decide (34525 = 2048)); [done|].
    destruct (decide (34525 = 34525)); [|done]. rewrite bind_ret.
    destruct (decide (plen ≠ 16)); [|done]. by rewrite bind_reject.
Qed.

(** *** Successful decodes *)

(** One step of the decoder in a hypothesis [Hp : chain = (w, Ok r)]: a
    collaborator call at the head returned, a check at the head passed. *)
Ltac returned Hp :=
  match type of Hp with
  | (call ?c ≫= _) = _ =>
      let E := fresh "E" in
      destruct c eqn:E;
      [rewrite bind_call_Ok in Hp | rewrite bind_call_Raise in Hp; discriminate Hp]
  end.

Ltac passed Hp :=
  match type of Hp with
  | ((if decide ?P then _ else _) ≫= _) = _ =>
      destruct (decide P);
      [rewrite bind_reject in Hp; discriminate Hp | rewrite bind_ret in Hp]
  end.

Ltac passed_version Hp :=
  repeat (match type of Hp with
          | ((if decide (?a = ?b) then _ else _) ≫= _) = _ =>
              destruct (decide (a = b)); try (exfalso; lia)
          end);
  rewrite bind_assoc in Hp; returned Hp;
  rewrite bind_assoc in Hp; returned Hp;
  rewrite !bind_ret in Hp; cbv beta iota in Hp.

Lemma parse_Ok_inv frame w r :
  parse_arp_frame frame = (w, Ok r) →
  w = [] ∧ header_check frame = None ∧
  ETH_TYPE r = wire_ETH_TYPE frame ∧ ARP_HTYPE r = 1 ∧
  ARP_PTYPE r = wire_PTYPE frame ∧ ARP_HLEN r = 6 ∧
  ARP_PLEN r = IP_ADDR_LEN r ∧ ARP_OPER r = wire_OPER frame ∧
  (wire_PTYPE frame = 0x0800 ∧ IP_PRO_VER r = 4 ∧ IP_ADDR_LEN r = 4 ∨
   wire_PTYPE frame = 0x86DD ∧ IP_PRO_VER r = 6 ∧ IP_ADDR_LEN r = 16).
Proof.
  intros Hp. unfold parse_arp_frame, header_check in *. wire_fields.
  do 4 returned Hp. do 2 passed Hp.
  destruct (decide (Ok a1 ≠ Ok 6)) as [Hne|_]; [destruct Hne; f_equal; lia|].
  destruct (decide (_ = 2048)) as [Hp4|Hp4];
    [|destruct (decide (_ = 34525)) as [Hp6|Hp6];
      [|rewrite bind_reject in Hp; discriminate Hp]];
    rewrite bind_ret in Hp; cbv beta iota in Hp;
    passed Hp; do 2 returned Hp; passed_version Hp;
    injection Hp as <- <-; cbn [ETH_TYPE ARP_HTYPE ARP_PTYPE ARP_HLEN ARP_PLEN
      ARP_OPER IP_PRO_VER IP_ADDR_LEN].
  - destruct (decide (Ok a2 ≠ Ok 4)) as [Hne|_]; [destruct Hne; f_equal; lia|].
    repeat split; try lia; auto.
  - destruct (decide (Ok a2 ≠ Ok 16)) as [Hne|_]; [destruct Hne; f_equal; lia|].
    repeat split; try lia; auto.
Qed.

(** *** Failures behind an accepted header *)

Lemma header_check_None frame :
  header_check frame = None →
  wire_HTYPE frame = 1 ∧ wire_HLEN frame = Ok 6 ∧
  (wire_PTYPE frame = 0x0800 ∧ wire_PLEN frame = Ok 4 ∨
   wire_PTYPE frame = 0x86DD ∧ wire_PLEN frame = Ok 16).
Proof.
  unfold header_check. intros Hc.
  destruct (decide (wire_HTYPE frame ≠ 1)) as [|Hh]; [done|].
  destruct (decide (wire_HLEN frame ≠ Ok 6)) as [|Hl]; [done|].
  apply dec_stable in Hl. split; [lia|]. split; [done|].
  destruct (decide (wire_PTYPE frame = 2048)) as [Hp|Hp].
  - destruct (decide (wire_PLEN frame ≠ Ok 4)) as [|Hpl]; [done|].
    apply dec_stable in Hpl. by left.
  - destruct (decide (wire_PTYPE frame = 34525)) as [Hp6|Hp6]; [|done].
    destruct (decide (wire_PLEN frame ≠ Ok 16)) as [|Hpl]; [done|].
    apply dec_stable in Hpl. by right.
Qed.

Ltac returned_or_raised Hp :=
  match type of Hp with
  | (call ?c ≫= _) = _ =>
      let E := fresh "E" in
      destruct c eqn:E;
      [rewrite bind_call_Ok in Hp
      |rewrite bind_call_Raise in Hp; injection Hp as <- <-;
       split; [done|unfold raised_by_conversion; eauto 6]]
  end.

Lemma header_accepted frame w e :
  header_check frame = None →
  parse_arp_frame frame = (w, Raise e) →
  w = [] ∧ raised_by_conversion e.
Proof.
  intros Hc Hp. apply header_check_None in Hc as (Hh & Hl & Hpt).
  unfold parse_arp_frame in Hp. wire_fields.
  do 2 returned_or_raised Hp.
  rewrite Hl, bind_call_Ok in Hp.
  destruct Hpt as [[Hpt Hpl]|[Hpt Hpl]];
    rewrite Hpl, bind_call_Ok, Hh, Hpt in Hp;
    repeat (match type of Hp with
            | ((if decide ?P then _ else _) ≫= _) = _ =>
                destruct (decide P); try (exfalso; lia)
            end; rewrite ?bind_ret in Hp; cbv beta iota in Hp);
    do 2 returned_or_raised Hp;
    repeat (match type of Hp with
            | ((if decide ?P then _ else _) ≫= _) = _ =>
                destruct (decide P); try (exfalso; lia)
            end);
    rewrite bind_assoc in Hp; returned_or_raised Hp;
    rewrite bind_assoc in Hp; returned_or_raised Hp;
    rewrite !bind_ret in Hp; discriminate Hp.
Qed.

Lemma wire_lengths_present frame :
  (20 ≤ length frame)%nat →
  ∃ hlen plen, wire_HLEN frame = Ok hlen ∧ wire_PLEN frame = Ok plen.
Proof.
  intros Hlen.
  do 20 (destruct frame as [|? frame]; [simpl in Hlen; lia|]).
  wire_fields. cbn [index lookup list_lookup]. eauto.
Qed.

Lemma wire_PLEN_length frame plen :
  wire_PLEN frame = Ok plen → (20 ≤ length frame)%nat.
Proof.
  unfold wire_PLEN, index. wire_fields. intros Hp.
  match type of Hp with
  | match ?t with _ => _ end = _ => destruct t as [x|] eqn:Hx; [|discriminate Hp]
  end.
  apply lookup_lt_Some in Hx.
  rewrite length_take, length_drop in Hx. lia.
Qed.

Lemma header_rejected frame err :
  (20 ≤ length frame)%nat → formats_hardware_addresses →
  header_check frame = Some err →
  snd (parse_arp_frame frame) = Raise ValueError ∧
  decode_error (parse_arp_frame frame) = Some err ∧
  err ≠ Truncated.
Proof.
  intros Hlen Hmac Hc.
  destruct (wire_lengths_present frame Hlen) as (hlen & plen & Hl & Hpl).
  unfold header_check in Hc. rewrite Hl, Hpl in Hc.
  destruct (decide (wire_HTYPE frame ≠ 1)) as [Hh|Hh].
  { injection Hc as <-. by rewrite reject_HTYPE. }
  apply dec_stable in Hh.
  destruct (decide (Ok hlen ≠ Ok 6)) as [Hne|Hl6].
  { injection Hc as <-. rewrite (reject_HLEN frame hlen); [done..|congruence]. }
  apply dec_stable in Hl6. injection Hl6 as ->.
  destruct (decide (wire_PTYPE frame = 2048)) as [Hp4|Hp4].
  { destruct (decide (Ok plen ≠ Ok 4)) as [Hne|]; [|done]. injection Hc as <-.
    rewrite (reject_PLEN frame plen 4); [done..|auto|done|congruence]. }
  destruct (decide (wire_PTYPE frame = 34525)) as [Hp6|Hp6].
  { destruct (decide (Ok plen ≠ Ok 16)) as [Hne|]; [|done]. injection Hc as <-.
    rewrite (reject_PLEN frame plen 16); [done..|auto|done|congruence]. }
  injection Hc as <-. by rewrite reject_PTYPE.
Qed.

(** *** The claims on rejected frames *)

(** C3, as amended.  The decoder checks no length and has no [Truncated]
    rejection.  For a frame of at least 20 bytes, however far it falls
    short of 14 + 8 + 2 x (6 + N) bytes, the header fields decide: when a
    header check fails, decoding fails with the [ValueError] of the first
    failing check (UnsupportedHardwareType, LengthMismatch or
    UnsupportedProtocolType, never Truncated); when all header checks pass,
    the decoder itself raises nothing, the sender and target blocks go to
    the address conversions as far as they were read, and decoding fails
    only with an exception one of those conversions raised. *)
Theorem short_frame_is_judged_by_its_header frame :
  (20 ≤ length frame)%nat → formats_hardware_addresses →
  match header_check frame with
  | Some err =>
      snd (parse_arp_frame frame) = Raise ValueError ∧
      decode_error (parse_arp_frame frame) = Some err ∧
      err ≠ Truncated
  | None =>
      decode_error (parse_arp_frame frame) = None ∧
      ∀ e, snd (parse_arp_frame frame) = Raise e → raised_by_conversion e
  end.
Proof.
  intros Hlen Hmac. destruct (header_check frame) as [err|] eqn:Hc.
  - by apply header_rejected.
  - destruct (parse_arp_frame frame) as [w [r|e]] eqn:Hp.
    + apply parse_Ok_inv in Hp as [-> _]. by split.
    + destruct (header_accepted frame w e Hc Hp) as [-> He].
      split; [done|]. by intros e' [= <-].
Qed.

(** A frame that ends after its Ethernet header and before its
    protocol-address-length byte: [arp_header[4]] or [arp_header[5]] raises
    before any check is reached. *)
Lemma length_bytes_missing frame :
  (14 ≤ length frame < 20)%nat → formats_hardware_addresses →
  parse_arp_frame frame = ([], Raise IndexError).
Proof.
  intros [Hlo Hhi] Hmac.
  do 14 (destruct frame as [|? frame]; [simpl in Hlo; lia|]).
  destruct (Hmac [b; b0; b1; b2; b3; b4] eq_refl) as [d Hd].
  destruct (Hmac [b5; b6; b7; b8; b9; b10] eq_refl) as [d' Hd'].
  unfold parse_arp_frame. wire_fields. rewrite Hd, bind_call_Ok, Hd', bind_call_Ok.
  destruct frame as [|? [|? [|? [|? [|? [|? ?]]]]]];
    [reflexivity..|simpl in Hhi; lia].
Qed.

Lemma wire_HLEN_length frame hlen :
  wire_HLEN frame = Ok hlen → (19 ≤ length frame)%nat.
Proof.
  unfold wire_HLEN, index. wire_fields. intros Hp.
  match type of Hp with
  | match ?t with _ => _ end = _ => destruct t as [x|] eqn:Hx; [|discriminate Hp]
  end.
  apply lookup_lt_Some in Hx.
  rewrite length_take, length_drop in Hx. lia.
Qed.

(** C4, at the input where the code departs from it.  The hardware type is
    tested only after [arp_header[4]] and [arp_header[5]] have been read: a
    frame that holds its hardware-type field, other than 1, and ends before
    its protocol-address-length byte raises [IndexError] with no warning,
    which is not the hardware-type rejection.  From 20 bytes on the claim
    holds: a hardware type other than 1 is rejected with the hardware-type
    [ValueError], the specification's UnsupportedHardwareType, whatever the
    other fields hold. *)
Theorem hardware_type_is_checked_after_the_length_bytes frame :
  formats_hardware_addresses → wire_HTYPE frame ≠ 1 →
  ((16 ≤ length frame < 20)%nat →
     parse_arp_frame frame = ([], Raise IndexError) ∧
     decode_error (parse_arp_frame frame) = None) ∧
  ((20 ≤ length frame)%nat →
     parse_arp_frame frame = ([HTYPE_is_not_1], Raise ValueError) ∧
     decode_error (parse_arp_frame frame) = Some UnsupportedHardwareType).
Proof.
  intros Hmac Hh. split.
  - intros Hlen. by rewrite length_bytes_missing; [|lia|].
  - intros Hlen. by rewrite reject_HTYPE.
Qed.

(** C5, at the input where the code departs from it.  With hardware-type 1
    and hardware-address-length 6, the protocol type is tested only after
    [arp_header[5]] has been read.  A frame that ends with its
    hardware-address-length byte, 19 bytes, raises [IndexError] with no
    warning whatever its protocol type, so a protocol type other than
    0x0800 and 0x86DD is not rejected as UnsupportedProtocolType there.
    Where the protocol-address-length byte is present the claim holds:
    0x0800 with a length other than 4 and 0x86DD with a length other than
    16 are a LengthMismatch, any other protocol type is an
    UnsupportedProtocolType. *)
Theorem protocol_type_is_checked_after_the_length_bytes frame :
  formats_hardware_addresses →
  wire_HTYPE frame = 1 → wire_HLEN frame = Ok 6 →
  match wire_PLEN frame with
  | Raise _ =>
      length frame = 19%nat ∧
      parse_arp_frame frame = ([], Raise IndexError) ∧
      decode_error (parse_arp_frame frame) = None
  | Ok plen =>
      (wire_PTYPE frame = 0x0800 → plen ≠ 4 →
         parse_arp_frame frame =
           ([PLEN_PTYPE_mismatch plen 0x0800], Raise ValueError) ∧
         decode_error (parse_arp_frame frame) = Some LengthMismatch) ∧
      (wire_PTYPE frame = 0x86DD → plen ≠ 16 →
         parse_arp_frame frame =
           ([PLEN_PTYPE_mismatch plen 0x86DD], Raise ValueError) ∧
         decode_error (parse_arp_frame frame) = Some LengthMismatch) ∧
      (wire_PTYPE frame ≠ 0x0800 → wire_PTYPE frame ≠ 0x86DD →
         parse_arp_frame frame =
           ([PTYPE_is_not_0x0800_or_0x86DD], Raise ValueError) ∧
         decode_error (parse_arp_frame frame) = Some UnsupportedProtocolType)
  end.
Proof.
  intros Hmac Hh Hl.
  pose proof (wire_HLEN_length frame 6 Hl) as Hlo.
  destruct (wire_PLEN frame) as [plen|e] eqn:Hpl.
  - pose proof (wire_PLEN_length frame plen Hpl) as Hlen. split; [|split].
    + intros Hp Hne. rewrite (reject_PLEN frame plen 4), Hp; auto.
    + intros Hp Hne. rewrite (reject_PLEN frame plen 16), Hp; auto.
    + intros Hp4 Hp6. by rewrite reject_PTYPE.
  - assert (length frame < 20)%nat as Hhi.
    { destruct (decide (20 ≤ length frame)%nat) as [Hge|]; [|lia].
      destruct (wire_lengths_present frame Hge) as (? & ? & _ & Hpl').
      rewrite Hpl' in Hpl. discriminate Hpl. }
    split; [lia|]. by rewrite length_bytes_missing; [|lia|].
Qed.

(** C2, at the input where the code departs from it.  A frame that ends
    after its Ethernet header and before its two address-length bytes makes
    [arp_header[4]] or [arp_header[5]] raise [IndexError]; this is no
    [ValueError], so neither loop's handler catches it and the turn, and
    with it the loop, is left. *)
Theorem frame_without_length_bytes_leaves_the_loops frame :
  (14 ≤ length frame < 20)%nat → formats_hardware_addresses →
  parse_arp_frame frame = ([], Raise IndexError) ∧
  (∀ st now, monitor_turn st frame now = Uncaught IndexError) ∧
  (∀ target_mac responses,
     listener_turn target_mac responses frame = Uncaught IndexError).
Proof.
  intros [Hlo Hhi] Hmac.
  assert (parse_arp_frame frame = ([], Raise IndexError)) as Hp.
  { do 14 (destruct frame as [|? frame]; [simpl in Hlo; lia|]).
    destruct (Hmac [b; b0; b1; b2; b3; b4] eq_refl) as [d Hd].
    destruct (Hmac [b5; b6; b7; b8; b9; b10] eq_refl) as [d' Hd'].
    unfold parse_arp_frame. wire_fields. rewrite Hd, bind_call_Ok, Hd', bind_call_Ok.
    destruct frame as [|? [|? [|? [|? [|? [|? ?]]]]]];
      [reflexivity..|simpl in Hhi; lia]. }
  split; [done|]. split.
  - intros st now. unfold monitor_turn. by rewrite Hp.
  - intros target_mac responses. unfold listener_turn. by rewrite Hp.
Qed.

(** *** The encoder *)

Example fromhex_0806 : bytes_fromhex "0806" = Ok [x08; x06].
Proof. reflexivity. Qed.
Example fromhex_0001 : bytes_fromhex "0001" = Ok [x00; x01].
Proof. reflexivity. Qed.
Example fromhex_0800 : bytes_fromhex "0800" = Ok [x08; x00].
Proof. reflexivity. Qed.
Example fromhex_06 : bytes_fromhex "06" = Ok [x06].
Proof. reflexivity. Qed.
Example fromhex_04 : bytes_fromhex "04" = Ok [x04].
Proof. reflexivity. Qed.
Example fromhex_zeros :
  bytes_fromhex "000000000000" = Ok [x00; x00; x00; x00; x00; x00].
Proof. reflexivity. Qed.

Lemma result_bind_Ok {A B : Type} (a : A) (k : A → result B) : Ok a ≫= k = k a.
Proof. reflexivity. Qed.

(** The frame the encoder sends, given what the conversions return. *)
Lemma transmit_frame interface target_ip source_mac source_ip dst sha spa tpa :
  mac_str_to_bytes "ff:ff:ff:ff:ff:ff" = Ok dst →
  mac_str_to_bytes source_mac = Ok sha →
  IPv4Address_packed source_ip = Ok spa →
  IPv4Address_packed target_ip = Ok tpa →
  transmit_arp_request_ipv4 interface target_ip source_mac source_ip =
    Ok (Send interface
          (dst ++ sha ++ [x08; x06] ++ [x00; x01] ++ [x08; x00] ++ [x06] ++
           [x04] ++ [x00; x01] ++ sha ++ spa ++
           [x00; x00; x00; x00; x00; x00] ++ tpa)).
Proof.
  intros Hdst Hsha Hspa Htpa. unfold transmit_arp_request_ipv4.
  rewrite Hdst, Hsha, Hspa, Htpa, fromhex_0806, fromhex_0001, fromhex_0800,
    fromhex_06, fromhex_04, fromhex_zeros.
  rewrite !result_bind_Ok. do 2 f_equal. by rewrite <- !app_assoc.
Qed.

Ltac six_bytes b Hb :=
  destruct b as [|? [|? [|? [|? [|? [|? [|? ?]]]]]]]; try discriminate Hb; clear Hb.
Ltac four_bytes b Hb :=
  destruct b as [|? [|? [|? [|? [|? ?]]]]]; try discriminate Hb; clear Hb.

(** C6.  The frame [transmit_arp_request_ipv4] sends is 42 bytes: the
    broadcast destination, the source hardware address, ethertype 0x0806,
    hardware-type 1, protocol-type 0x0800, lengths 6 and 4, operation 1,
    the source hardware and protocol addresses, six zero bytes and the
    target protocol address, in this order without padding, integers
    big-endian. *)
Theorem request_frame_layout interface target_ip source_mac source_ip sha spa tpa :
  mac_str_to_bytes "ff:ff:ff:ff:ff:ff" = Ok [xff; xff; xff; xff; xff; xff] →
  mac_str_to_bytes source_mac = Ok sha → length sha = 6%nat →
  IPv4Address_packed source_ip = Ok spa → length spa = 4%nat →
  IPv4Address_packed target_ip = Ok tpa → length tpa = 4%nat →
  ∃ frame,
    transmit_arp_request_ipv4 interface target_ip source_mac source_ip =
      Ok (Send interface frame) ∧
    length frame = 42%nat ∧
    frame = [xff; xff; xff; xff; xff; xff] ++ sha ++ [x08; x06] ++
            [x00; x01] ++ [x08; x00] ++ [x06] ++ [x04] ++ [x00; x01] ++
            sha ++ spa ++ [x00; x00; x00; x00; x00; x00] ++ tpa ∧
    wire_ETH_TYPE frame = 0x0806 ∧ wire_HTYPE frame = 1 ∧
    wire_PTYPE frame = 0x0800 ∧ wire_HLEN frame = Ok 6 ∧
    wire_PLEN frame = Ok 4 ∧ wire_OPER frame = 1.
Proof.
  intros Hdst Hsha Lsha Hspa Lspa Htpa Ltpa.
  eexists. split; [by apply transmit_frame|].
  six_bytes sha Lsha. four_bytes spa Lspa. four_bytes tpa Ltpa.
  repeat split.
Qed.

(** *** Round trip *)

(** C1.  The frame the encoder builds from valid addresses decodes, and
    the decoded sender hardware address, sender protocol address, target
    protocol address and operation are the source MAC, the source IP, the
    target IP and 1. *)
Theorem request_round_trip interface target_ip source_mac source_ip :
  formats_hardware_addresses → converts_broadcast →
  valid_hardware_address source_mac →
  valid_ipv4_address source_ip →
  valid_ipv4_address target_ip →
  ∃ frame f,
    transmit_arp_request_ipv4 interface target_ip source_mac source_ip =
      Ok (Send interface frame) ∧
    parse_arp_frame frame = ([], Ok f) ∧
    ARP_SHA_MAC_ADDR f = source_mac ∧
    ARP_SPA_PRO_ADDR f = source_ip ∧
    ARP_TPA_PRO_ADDR f = target_ip ∧
    ARP_OPER f = 1.
Proof.
  intros Hmac (dst & Hdst & Ldst) (sha & Hsha & Lsha & Fsha)
    (spa & Hspa & Lspa & Fspa) (tpa & Htpa & Ltpa & Ftpa).
  six_bytes dst Ldst. six_bytes sha Lsha. four_bytes spa Lspa. four_bytes tpa Ltpa.
  destruct (Hmac [b; b0; b1; b2; b3; b4] eq_refl) as [dtext Hd].
  destruct (Hmac [x00; x00; x00; x00; x00; x00] eq_refl) as [ztext Hz].
  eexists _,
    {| ETH_DEST_MAC := dtext; ETH_SRC_MAC := source_mac; ETH_TYPE := 0x0806;
       ARP_HTYPE := 1; ARP_PTYPE := 0x0800; ARP_HLEN := 6; ARP_PLEN := 4;
       ARP_OPER := 1; IP_PRO_VER := 4; IP_ADDR_LEN := 4;
       ARP_SHA_MAC_ADDR := source_mac; ARP_SPA_PRO_ADDR := source_ip;
       ARP_THA_MAC_ADDR := ztext; ARP_TPA_PRO_ADDR := target_ip |}.
  split; [by apply transmit_frame|].
  cbn [app]. split; [|by repeat split].
  unfold parse_arp_frame. wire_fields. cbn [index lookup list_lookup].
  rewrite Hd, bind_call_Ok, Fsha, !bind_call_Ok.
  change (int_from_bytes_big [x00; x01]) with 1.
  change (int_from_bytes_big [x08; x00]) with 2048.
  change (Z.of_N (to_N x06)) with 6. change (Z.of_N (to_N x04)) with 4.
  destruct (decide (1 ≠ 1)); [done|]. rewrite bind_ret.
  destruct (decide (6 ≠ 6)); [done|]. rewrite bind_ret.
  destruct (decide (2048 = 2048)); [|done]. rewrite bind_ret. cbv beta iota.
  destruct (decide (4 ≠ 4)); [done|]. rewrite bind_ret.
  change (Z.to_nat (6 + 4)) with 10%nat. cbn [take drop].
  rewrite Fsha, bind_call_Ok, Hz, bind_call_Ok.
  destruct (decide (4 = 4)); [|done].
  rewrite bind_assoc, Fspa, bind_call_Ok, bind_assoc, Ftpa, bind_call_Ok, !bind_ret.
  reflexivity.
Qed.

(** *** What the decoder reads *)

(** The decoder reads no further than 66 bytes, and no further than 42
    when the protocol type is IPv4. *)
Lemma parse_reads_66 frame :
  parse_arp_frame frame = parse_arp_frame (take 66 frame).
Proof.
  do 66 (destruct frame as [|? frame]; [reflexivity|]).
  unfold parse_arp_frame. wire_fields. cbn [index lookup list_lookup].
  do 2 (apply bind_ext; intros ?). rewrite !bind_call_Ok.
  do 2 (apply bind_ext; intros ?).
  destruct (decide (_ = 2048));
    [|destruct (decide (_ = 34525)); [|reflexivity]];
    rewrite !bind_ret; cbv beta iota; apply bind_ext; intros _.
  - change (Z.to_nat (6 + 4)) with 10%nat. reflexivity.
  - change (Z.to_nat (6 + 16)) with 22%nat. reflexivity.
Qed.

Lemma parse_reads_42 frame :
  wire_PTYPE frame = 0x0800 →
  parse_arp_frame frame = parse_arp_frame (take 42 frame).
Proof.
  do 42 (destruct frame as [|? frame]; [reflexivity|]). intros Hp.
  unfold parse_arp_frame. wire_fields. cbn [index lookup list_lookup].
  do 2 (apply bind_ext; intros ?). rewrite !bind_call_Ok.
  do 2 (apply bind_ext; intros ?). rewrite Hp.
  destruct (decide (2048 = 2048)); [|done].
  rewrite !bind_ret; cbv beta iota; apply bind_ext; intros _.
  change (Z.to_nat (6 + 4)) with 10%nat. reflexivity.
Qed.

Lemma retagged_bind {A : Type} t o (m : logged A) (k : A → logged arp_frame) :
  retagged t o (m ≫= k) = m ≫= (λ a, retagged t o (k a)).
Proof.
  unfold mbind, logged_bind, retagged. destruct m as [w [a|e]]; [|done].
  by destruct (k a) as [w' [r|e]].
Qed.

Lemma parse_with_ethertype_and_operation frame ethertype oper :
  (22 ≤ length frame)%nat → length ethertype = 2%nat → length oper = 2%nat →
  parse_arp_frame (with_ethertype_and_operation ethertype oper frame) =
  retagged (int_from_bytes_big ethertype) (int_from_bytes_big oper)
    (parse_arp_frame frame).
Proof.
  intros Hlen Ht Ho.
  do 22 (destruct frame as [|? frame]; [simpl in Hlen; lia|]).
  destruct ethertype as [|t0 [|t1 [|? ?]]]; try discriminate Ht.
  destruct oper as [|o0 [|o1 [|? ?]]]; try discriminate Ho.
  unfold with_ethertype_and_operation, parse_arp_frame. wire_fields.
  cbn [app take drop]. cbn [index lookup list_lookup].
  do 4 (rewrite retagged_bind; apply bind_ext; intros ?).
  do 2 (rewrite retagged_bind; apply bind_ext; intros _).
  rewrite retagged_bind; apply bind_ext; intros [ver width].
  rewrite retagged_bind; apply bind_ext; intros _.
  do 2 (rewrite retagged_bind; apply bind_ext; intros ?).
  rewrite retagged_bind; apply bind_ext; intros [spa tpa].
  reflexivity.
Qed.

(** X21.  The decoder reads the ethertype and the operation code and tests
    neither.  Overwriting the two fields of a frame changes those two
    decoded fields and nothing else of the outcome, so the frame decodes
    with any ethertype and any operation code exactly when it decodes with
    its own. *)
Theorem ethertype_and_operation_are_not_checked frame ethertype oper :
  (22 ≤ length frame)%nat → length ethertype = 2%nat → length oper = 2%nat →
  parse_arp_frame (with_ethertype_and_operation ethertype oper frame) =
    retagged (int_from_bytes_big ethertype) (int_from_bytes_big oper)
      (parse_arp_frame frame) ∧
  ((∃ w r, parse_arp_frame frame = (w, Ok r)) ↔
   (∃ w r, parse_arp_frame
             (with_ethertype_and_operation ethertype oper frame) = (w, Ok r))).
Proof.
  intros Hlen Ht Ho.
  pose proof (parse_with_ethertype_and_operation frame ethertype oper Hlen Ht Ho)
    as Hr.
  split; [done|]. rewrite Hr. unfold retagged.
  destruct (parse_arp_frame frame) as [w [r|e]].
  - split; intros _; eauto.
  - split; intros (w' & r' & [=]).
Qed.

(** ** The passive monitor *)

Lemma monitor_turn_reply st frame now w f :
  parse_arp_frame frame = (w, Ok f) → ARP_OPER f = 2 →
  monitor_turn st frame now =
    Continue
      {| seen_hosts :=
           <[ARP_SPA_PRO_ADDR f :=
               {| mac := ARP_SHA_MAC_ADDR f;
                  count := count_of st (ARP_SPA_PRO_ADDR f) + 1;
                  last_seen := now |}]> (seen_hosts st);
         stdout := stdout st ++
           [REPLY (ETH_SRC_MAC f) (ETH_DEST_MAC f) (ARP_SPA_PRO_ADDR f)
                  (ARP_SHA_MAC_ADDR f) (IP_PRO_VER f)] |}.
Proof.
  intros Hp Ho. unfold monitor_turn, count_of. rewrite Hp, Ho.
  destruct (decide (2 = 1)); [done|]. destruct (decide (2 = 2)); [|done].
  by destruct (seen_hosts st !! ARP_SPA_PRO_ADDR f).
Qed.

Lemma monitor_turn_other st frame now st' :
  monitor_turn st frame now = Continue st' →
  (∀ w f, parse_arp_frame frame = (w, Ok f) → ARP_OPER f ≠ 2) →
  seen_hosts st' = seen_hosts st.
Proof.
  unfold monitor_turn. intros Ht Hno.
  destruct (parse_arp_frame frame) as [w [f|e]] eqn:Hp.
  - specialize (Hno w f eq_refl).
    destruct (decide (ARP_OPER f = 1)); [by injection Ht as <-|].
    destruct (decide (ARP_OPER f = 2)); [done|]. by injection Ht as <-.
  - destruct (except_ValueError e); [by injection Ht as <-|done].
Qed.

Lemma monitor_turn_count st frame now st' addr :
  monitor_turn st frame now = Continue st' →
  count_of st' addr = count_of st addr + (if reply_from addr frame then 1 else 0).
Proof.
  intros Ht. unfold reply_from.
  destruct (parse_arp_frame frame) as [w [f|e]] eqn:Hp.
  - destruct (decide (ARP_OPER f = 2)) as [Ho|Ho].
    + rewrite (monitor_turn_reply st frame now w f Hp Ho) in Ht.
      injection Ht as <-. unfold count_of at 1. cbn [seen_hosts].
      destruct (decide (ARP_SPA_PRO_ADDR f = addr)) as [<-|Hne].
      * rewrite lookup_insert_eq, bool_decide_eq_true_2; done.
      * rewrite lookup_insert_ne, bool_decide_eq_false_2 by tauto.
        unfold count_of. lia.
    + rewrite bool_decide_eq_false_2 by tauto.
      unfold count_of.
      rewrite (monitor_turn_other st frame now st' Ht); [lia|].
      intros w' f' Hp'. rewrite Hp in Hp'. by injection Hp' as _ <-.
  - unfold count_of.
    rewrite (monitor_turn_other st frame now st' Ht); [lia|].
    intros w' f' Hp'. rewrite Hp in Hp'. discriminate Hp'.
Qed.

Lemma monitor_turn_counted st frame now st' :
  monitor_turn st frame now = Continue st' → counted st → counted st'.
Proof.
  intros Ht Hc addr h Hh.
  destruct (parse_arp_frame frame) as [w [f|e]] eqn:Hp.
  - destruct (decide (ARP_OPER f = 2)) as [Ho|Ho].
    + rewrite (monitor_turn_reply st frame now w f Hp Ho) in Ht.
      injection Ht as <-. cbn [seen_hosts] in Hh.
      destruct (decide (ARP_SPA_PRO_ADDR f = addr)) as [<-|Hne].
      * rewrite lookup_insert_eq in Hh. injection Hh as <-. cbn [count].
        unfold count_of. destruct (seen_hosts st !! _) as [old|] eqn:Hold; [|lia].
        specialize (Hc _ _ Hold). lia.
      * rewrite lookup_insert_ne in Hh by done. by apply (Hc addr).
    + rewrite (monitor_turn_other st frame now st' Ht) in Hh; [by apply (Hc addr)|].
      intros w' f' Hp'. rewrite Hp in Hp'. by injection Hp' as _ <-.
  - rewrite (monitor_turn_other st frame now st' Ht) in Hh; [by apply (Hc addr)|].
    intros w' f' Hp'. rewrite Hp in Hp'. discriminate Hp'.
Qed.

(** A run processes a prefix of what it receives, all of it unless a turn
    is left by an uncaught exception. *)
Lemma monitor_loop_processed st received st' e :
  monitor_loop st received = (st', e) →
  ∃ processed rest,
    received = processed ++ rest ∧
    monitor_loop st processed = (st', None) ∧
    (e = None → rest = []).
Proof.
  revert st. induction received as [|[frame now] received IH]; intros st Hl.
  - injection Hl as <- <-. by exists [], [].
  - cbn [monitor_loop] in Hl.
    destruct (monitor_turn st frame now) as [st1|e1] eqn:Ht.
    + destruct (IH st1 Hl) as (processed & rest & -> & Hl' & He).
      exists ((frame, now) :: processed), rest. split; [done|]. split; [|done].
      cbn [monitor_loop]. by rewrite Ht.
    + injection Hl as <- <-. by exists [], ((frame, now) :: received).
Qed.

Lemma monitor_loop_count st received st' addr :
  monitor_loop st received = (st', None) →
  count_of st' addr = count_of st addr + replies_from addr received.
Proof.
  revert st. induction received as [|[frame now] received IH]; intros st Hl.
  - injection Hl as <-. cbn [replies_from]. lia.
  - cbn [monitor_loop replies_from] in *.
    destruct (monitor_turn st frame now) as [st1|e1] eqn:Ht; [|done].
    rewrite (IH st1 Hl), (monitor_turn_count st frame now st1 addr Ht). lia.
Qed.

Lemma monitor_loop_counted st received st' :
  monitor_loop st received = (st', None) → counted st → counted st'.
Proof.
  revert st. induction received as [|[frame now] received IH]; intros st Hl Hc.
  - by injection Hl as <-.
  - cbn [monitor_loop] in Hl.
    destruct (monitor_turn st frame now) as [st1|e1] eqn:Ht; [|done].
    eapply IH; [done|]. by eapply monitor_turn_counted.
Qed.

Lemma replies_from_positive addr received :
  0 < replies_from addr received →
  ∃ frame now, (frame, now) ∈ received ∧ reply_from addr frame = true.
Proof.
  induction received as [|[frame now] received IH]; cbn [replies_from]; [lia|].
  destruct (reply_from addr frame) eqn:Hr.
  - intros _. exists frame, now. split; [left|done].
  - intros Hpos. destruct IH as (frame' & now' & Hin & Hr'); [lia|].
    exists frame', now'. split; [by right|done].
Qed.

Lemma replies_from_nonneg addr received : 0 ≤ replies_from addr received.
Proof.
  induction received as [|[frame now] received IH]; cbn [replies_from]; [lia|].
  destruct (reply_from addr frame); lia.
Qed.

Lemma reply_from_true addr frame :
  reply_from addr frame = true →
  ∃ w f, parse_arp_frame frame = (w, Ok f) ∧ ARP_OPER f = 2 ∧
         ARP_SPA_PRO_ADDR f = addr.
Proof.
  unfold reply_from. destruct (parse_arp_frame frame) as [w [f|e]]; [|done].
  intros [Ho Hs]%bool_decide_eq_true. eauto.
Qed.

(** C7, as amended.  An entry of [seen_hosts] exists only for a protocol
    address from which a decoded reply (operation 2) was processed; a
    further reply from that address adds exactly 1 to the count, overwrites
    the hardware address with the sender's and sets the timestamp to the
    clock reading of that turn, which is no earlier than the old timestamp
    whenever the clock has not been set back in between; every other frame
    leaves the map as it is; the count of an address is the number of its
    replies, and two replies from one address give one entry of count 2. *)
Theorem seen_hosts_counts_replies :
  (∀ received st e addr,
     monitor received = (st, e) → is_Some (seen_hosts st !! addr) →
     ∃ processed rest frame now,
       received = processed ++ rest ∧ monitor processed = (st, None) ∧
       (frame, now) ∈ processed ∧ reply_from addr frame = true) ∧
  (∀ st frame now w f old,
     parse_arp_frame frame = (w, Ok f) → ARP_OPER f = 2 →
     seen_hosts st !! ARP_SPA_PRO_ADDR f = Some old →
     ∃ st', monitor_turn st frame now = Continue st' ∧
       seen_hosts st' =
         <[ARP_SPA_PRO_ADDR f :=
             {| mac := ARP_SHA_MAC_ADDR f; count := count old + 1;
                last_seen := now |}]> (seen_hosts st) ∧
       ((last_seen old <= now)%Q →
        ∃ new, seen_hosts st' !! ARP_SPA_PRO_ADDR f = Some new ∧
               (last_seen old <= last_seen new)%Q)) ∧
  (∀ st frame now st',
     monitor_turn st frame now = Continue st' →
     (∀ w f, parse_arp_frame frame = (w, Ok f) → ARP_OPER f ≠ 2) →
     seen_hosts st' = seen_hosts st) ∧
  (∀ received st addr,
     monitor received = (st, None) →
     count_of st addr = replies_from addr received) ∧
  (∀ frame1 now1 frame2 now2 addr,
     reply_from addr frame1 = true → reply_from addr frame2 = true →
     ∃ st h, monitor [(frame1, now1); (frame2, now2)] = (st, None) ∧
             seen_hosts st = {[addr := h]} ∧ count h = 2).
Proof.
  split; [|split; [|split; [|split]]].
  - intros received st e addr Hm [h Hh]. unfold monitor in Hm.
    destruct (monitor_loop_processed _ _ _ _ Hm) as (processed & rest & -> & Hl & _).
    assert (counted {| seen_hosts := ∅; stdout := [] |}) as Hc0.
    { intros a h0. cbn [seen_hosts]. by rewrite lookup_empty. }
    pose proof (monitor_loop_counted _ _ _ Hl Hc0 addr h Hh) as Hpos.
    pose proof (monitor_loop_count _ _ _ addr Hl) as Hn.
    unfold count_of in Hn. rewrite Hh in Hn. cbn [seen_hosts] in Hn.
    rewrite lookup_empty in Hn.
    destruct (replies_from_positive addr processed) as (frame & now & Hin & Hr); [lia|].
    by exists processed, rest, frame, now.
  - intros st frame now w f old Hp Ho Hold.
    eexists. split; [by eapply monitor_turn_reply|]. cbn [seen_hosts].
    unfold count_of. rewrite Hold. split; [done|].
    intros Hle. eexists. rewrite lookup_insert_eq. split; [done|]. done.
  - apply monitor_turn_other.
  - intros received st addr Hm. unfold monitor in Hm.
    rewrite (monitor_loop_count _ _ _ addr Hm). unfold count_of.
    cbn [seen_hosts]. rewrite lookup_empty. lia.
  - intros frame1 now1 frame2 now2 addr Hr1 Hr2.
    apply reply_from_true in Hr1 as (w1 & f1 & Hp1 & Ho1 & Hs1).
    apply reply_from_true in Hr2 as (w2 & f2 & Hp2 & Ho2 & Hs2).
    unfold monitor. cbn [monitor_loop].
    rewrite (monitor_turn_reply _ frame1 now1 w1 f1 Hp1 Ho1).
    rewrite (monitor_turn_reply _ frame2 now2 w2 f2 Hp2 Ho2).
    eexists _, _. split; [reflexivity|]. cbn [seen_hosts]. rewrite Hs1, Hs2.
    rewrite insert_insert_eq, insert_empty. split; [done|].
    unfold count_of. cbn [seen_hosts count].
    by rewrite lookup_insert_eq, lookup_empty.
Qed.

(** ** The reply listener *)

(** C8.  A turn of the listener appends the pair of sender protocol address
    and sender hardware address exactly when the frame decodes, its
    operation is 2 and its Ethernet destination is the prober's address;
    any other frame leaves the result sequence as it is.  The pair is
    appended whatever the sequence holds already: the same accepted frame
    received twice is in it twice. *)
Theorem listener_appends_exactly_the_accepted_replies target_mac responses frame :
  ((∃ w f,
      parse_arp_frame frame = (w, Ok f) ∧ ARP_OPER f = 2 ∧
      ETH_DEST_MAC f = target_mac ∧
      listener_turn target_mac responses frame =
        Continue (responses ++ [(ARP_SPA_PRO_ADDR f, ARP_SHA_MAC_ADDR f)]) ∧
      listener_turn target_mac
          (responses ++ [(ARP_SPA_PRO_ADDR f, ARP_SHA_MAC_ADDR f)]) frame =
        Continue (responses ++ [(ARP_SPA_PRO_ADDR f, ARP_SHA_MAC_ADDR f);
                                (ARP_SPA_PRO_ADDR f, ARP_SHA_MAC_ADDR f)]))
   ∨
   (¬ (∃ w f,
         parse_arp_frame frame = (w, Ok f) ∧ ARP_OPER f = 2 ∧
         ETH_DEST_MAC f = target_mac) ∧
    (listener_turn target_mac responses frame = Continue responses ∨
     ∃ e, listener_turn target_mac responses frame = Uncaught e))).
Proof.
  unfold listener_turn.
  destruct (parse_arp_frame frame) as [w [f|e]] eqn:Hp.
  - destruct (decide (ARP_OPER f ≠ 2)) as [Ho|Ho].
    { right. split; [|by left]. intros (w' & f' & [= _ <-] & Ho' & _). done. }
    destruct (decide (ETH_DEST_MAC f ≠ target_mac)) as [Hd|Hd].
    { right. split; [|by left]. intros (w' & f' & [= _ <-] & _ & Hd'). done. }
    apply dec_stable in Ho. apply dec_stable in Hd.
    left. exists w, f. rewrite <- app_assoc. done.
  - right. split; [by intros (w' & f' & [=] & _)|].
    destruct (except_ValueError e); [by left|right; eauto].
Qed.

(** *** Stopping the listener *)

Lemma step_terminated target_mac s s' :
  step target_mac s s' → terminated (thread s) = true →
  responses s' = responses s ∧ thread s' = thread s ∧ should_stop s' = true ∨
  responses s' = responses s ∧ thread s' = thread s ∧ should_stop s' = should_stop s.
Proof.
  intros Hs Ht.
  destruct Hs as [s E|s e E|s E|s E|s e E|s frame E|s E|s E ?];
    try (rewrite E in Ht; discriminate Ht); cbn; auto.
Qed.

Lemma steps_terminated target_mac s s' :
  steps target_mac s s' → terminated (thread s) = true →
  responses s' = responses s ∧ thread s' = thread s.
Proof.
  intros Hs. induction Hs as [s|s s1 s' H1 _ IH]; [done|]. intros Ht.
  destruct (step_terminated target_mac s s1 H1 Ht) as [(Hr & Hth & _)|(Hr & Hth & _)];
    destruct IH as [Hr' Hth']; try (by rewrite Hth); by rewrite Hr', Hth'.
Qed.

Lemma step_settled target_mac s s' :
  step target_mac s s' → settled s → settled s'.
Proof.
  intros Hs (Hflag & Hjoin & Hret).
  destruct Hs as [s E|s e E|s E|s E|s e E|s frame E|s E|s E Ht];
    try destruct (listener_turn target_mac (responses s) frame);
    (split; [|split]); cbn; intros Hx;
    first [ done
          | by apply Hflag
          | by apply Hret
          | by (apply Hflag; rewrite E)
          | by (specialize (Hjoin Hx); rewrite E in Hjoin)
          | by destruct (should_stop s) ].
Qed.

Lemma steps_settled target_mac s :
  steps target_mac listen_for_arp_reply_ipv4 s → settled s.
Proof.
  intros Hs. eapply (rtc_ind_r settled); [| |exact Hs].
  - repeat split; done.
  - intros s1 s2 _ Hstep IH. by eapply step_settled.
Qed.

Lemma step_to_Returned target_mac s s' :
  step target_mac s s' → thread s' = Returned →
  thread s = Returned ∨ thread s = LoopHead ∧ should_stop s = true.
Proof.
  intros Hs Hr.
  destruct Hs as [s E|s e E|s E|s E|s e E|s frame E|s E|s E Ht];
    try destruct (listener_turn target_mac (responses s) frame);
    cbn in Hr; try discriminate Hr; try (by left).
  right. split; [done|]. by destruct (should_stop s).
Qed.

(** C9, as amended.  In every interleaving of the worker with [stop]: once
    [stop] has returned, the worker thread has ended, by the [return] of
    its loop or by an exception the loop does not catch, the stop signal is
    set, and the result sequence [stop] returned is the same in every later
    state of the session, whatever frames arrive.  The worker leaves its
    loop by [return] only from the test of the stop signal, with the signal
    set. *)
Theorem result_is_settled_once_stop_returns target_mac s :
  steps target_mac listen_for_arp_reply_ipv4 s →
  (main s = AfterStop →
     terminated (thread s) = true ∧ should_stop s = true ∧
     ∀ s', steps target_mac s s' →
           responses s' = responses s ∧ thread s' = thread s) ∧
  (thread s = Returned → should_stop s = true) ∧
  (∀ s', step target_mac s s' → thread s' = Returned →
         thread s = Returned ∨ thread s = LoopHead ∧ should_stop s = true).
Proof.
  intros Hs. destruct (steps_settled target_mac s Hs) as (Hflag & Hjoin & Hret).
  split; [|split; [done|apply step_to_Returned]].
  intros Hm. split; [by apply Hjoin|]. split.
  - apply Hflag. by rewrite Hm.
  - intros s' Hs'. eapply steps_terminated; [done|]. by apply Hjoin.
Qed.


(** * Further properties of the code *)

(** ** The decoder: what a decoded frame is made of *)

Lemma take_drop_take (a b c : nat) (l : bytes) :
  (b + a ≤ c)%nat → take a (drop b (take c l)) = take a (drop b l).
Proof.
  intros Hle. rewrite (take_drop_commute (take c l)), take_take.
  rewrite Nat.min_l by lia. by rewrite <- take_drop_commute.
Qed.

(** Bring every slice of a read to a slice of the frame itself. *)
Ltac absolute :=
  wire_fields;
  rewrite ?take_drop_take in * by lia;
  rewrite ?drop_drop in *;
  rewrite ?drop_0 in *;
  rewrite ?take_take in *;
  cbn [Nat.add Nat.min] in *.

(** Walk a hypothesis [Hp : chain = outcome] down the decoder: each call
    returns or raises, each check passes or rejects. *)
Ltac walk Hp :=
  repeat (cbv beta iota in Hp;
          first
            [ rewrite bind_ret in Hp
            | rewrite bind_reject in Hp
            | match type of Hp with
              | (call ?c ≫= _) = _ =>
                  let E := fresh "E" in
                  destruct c eqn:E;
                  [rewrite bind_call_Ok in Hp | rewrite bind_call_Raise in Hp]
              | ((if decide ?P then _ else _) ≫= _) = _ => destruct (decide P)
              end
            | rewrite bind_assoc in Hp ]).

(** X1.  A decoded frame always satisfies the header invariant: no warning
    was logged, the hardware type is 1, the hardware address length 6, the
    protocol address length is the address width, and protocol type,
    version and width are 0x0800, 4, 4 or 0x86DD, 6, 16; ethertype and
    operation are the big-endian values on the wire, whatever they are. *)
Theorem decoded_frame_keeps_the_header_invariant frame w f :
  parse_arp_frame frame = (w, Ok f) →
  w = [] ∧ ARP_HTYPE f = 1 ∧ ARP_HLEN f = 6 ∧ ARP_PLEN f = IP_ADDR_LEN f ∧
  (ARP_PTYPE f = 0x0800 ∧ IP_PRO_VER f = 4 ∧ IP_ADDR_LEN f = 4 ∨
   ARP_PTYPE f = 0x86DD ∧ IP_PRO_VER f = 6 ∧ IP_ADDR_LEN f = 16) ∧
  ETH_TYPE f = wire_ETH_TYPE frame ∧ ARP_OPER f = wire_OPER frame ∧
  ARP_PTYPE f = wire_PTYPE frame.
Proof.
  intros Hp.
  destruct (parse_Ok_inv frame w f Hp)
    as (Hw & _ & Het & Hht & Hpt & Hhl & Hpl & Hop & Hv).
  repeat split; try done. rewrite Hpt. tauto.
Qed.

(** X2.  The text fields of a decoded frame are the conversions of fixed
    slices of the frame: destination, source and sender hardware address
    at bytes 0-6, 6-12 and 22-28; for IPv4 the sender protocol address at
    28-32 and the target addresses at 32-38 and 38-42; for IPv6 at 28-44,
    44-50 and 50-66. *)
Theorem decoded_addresses_come_from_fixed_offsets frame w f :
  parse_arp_frame frame = (w, Ok f) →
  mac_bytes_to_str (slice 0 6 frame) = Ok (ETH_DEST_MAC f) ∧
  mac_bytes_to_str (slice 6 12 frame) = Ok (ETH_SRC_MAC f) ∧
  mac_bytes_to_str (slice 22 28 frame) = Ok (ARP_SHA_MAC_ADDR f) ∧
  (IP_PRO_VER f = 4 →
     ipv4_bytes_to_str (slice 28 32 frame) = Ok (ARP_SPA_PRO_ADDR f) ∧
     mac_bytes_to_str (slice 32 38 frame) = Ok (ARP_THA_MAC_ADDR f) ∧
     ipv4_bytes_to_str (slice 38 42 frame) = Ok (ARP_TPA_PRO_ADDR f)) ∧
  (IP_PRO_VER f = 6 →
     ipv6_bytes_to_str (slice 28 44 frame) = Ok (ARP_SPA_PRO_ADDR f) ∧
     mac_bytes_to_str (slice 44 50 frame) = Ok (ARP_THA_MAC_ADDR f) ∧
     ipv6_bytes_to_str (slice 50 66 frame) = Ok (ARP_TPA_PRO_ADDR f)).
Proof.
  intros Hp. unfold parse_arp_frame in Hp. wire_fields.
  do 4 returned Hp. do 2 passed Hp.
  destruct (decide (_ = 2048)) as [Hp4|Hp4];
    [|destruct (decide (_ = 34525)) as [Hp6|Hp6];
      [|rewrite bind_reject in Hp; discriminate Hp]];
    rewrite bind_ret in Hp; cbv beta iota in Hp; passed Hp.
  - change (Z.to_nat (6 + 4)) with 10%nat in Hp.
    do 2 returned Hp. passed_version Hp. injection Hp as <- <-.
    cbn [ETH_DEST_MAC ETH_SRC_MAC ARP_SHA_MAC_ADDR ARP_SPA_PRO_ADDR
         ARP_THA_MAC_ADDR ARP_TPA_PRO_ADDR IP_PRO_VER].
    absolute. repeat split; try done; lia.
  - change (Z.to_nat (6 + 16)) with 22%nat in Hp.
    do 2 returned Hp. passed_version Hp. injection Hp as <- <-.
    cbn [ETH_DEST_MAC ETH_SRC_MAC ARP_SHA_MAC_ADDR ARP_SPA_PRO_ADDR
         ARP_THA_MAC_ADDR ARP_TPA_PRO_ADDR IP_PRO_VER].
    absolute. repeat split; try done; lia.
Qed.

(** The call at the head of the goal returns what [E] says. *)
Ltac returns E := absolute; rewrite E, bind_call_Ok.

(** The converse, for either address family: a frame whose header passes
    the four checks decodes as soon as the conversions accept its address
    slices. *)
Lemma parse_ipv4_complete frame dst src sha spa tha tpa :
  wire_HTYPE frame = 1 → wire_HLEN frame = Ok 6 →
  wire_PTYPE frame = 0x0800 → wire_PLEN frame = Ok 4 →
  mac_bytes_to_str (slice 0 6 frame) = Ok dst →
  mac_bytes_to_str (slice 6 12 frame) = Ok src →
  mac_bytes_to_str (slice 22 28 frame) = Ok sha →
  ipv4_bytes_to_str (slice 28 32 frame) = Ok spa →
  mac_bytes_to_str (slice 32 38 frame) = Ok tha →
  ipv4_bytes_to_str (slice 38 42 frame) = Ok tpa →
  parse_arp_frame frame =
    ([], Ok {| ETH_DEST_MAC := dst; ETH_SRC_MAC := src;
               ETH_TYPE := wire_ETH_TYPE frame; ARP_HTYPE := 1;
               ARP_PTYPE := 0x0800; ARP_HLEN := 6; ARP_PLEN := 4;
               ARP_OPER := wire_OPER frame; IP_PRO_VER := 4; IP_ADDR_LEN := 4;
               ARP_SHA_MAC_ADDR := sha; ARP_SPA_PRO_ADDR := spa;
               ARP_THA_MAC_ADDR := tha; ARP_TPA_PRO_ADDR := tpa |}).
Proof.
  intros Hh Hl Hp Hpl Hdst Hsrc Hsha Hspa Htha Htpa.
  unfold parse_arp_frame. returns Hdst. returns Hsrc. returns Hl. returns Hpl.
  rewrite Hh, Hp.
  destruct (decide (1 ≠ 1)); [done|]. rewrite bind_ret.
  destruct (decide (6 ≠ 6)); [done|]. rewrite bind_ret.
  destruct (decide (2048 = 2048)); [|done]. rewrite bind_ret. cbv beta iota.
  destruct (decide (4 ≠ 4)); [done|]. rewrite bind_ret.
  change (Z.to_nat (6 + 4)) with 10%nat.
  returns Hsha. returns Htha.
  destruct (decide (4 = 4)); [|done].
  rewrite bind_assoc. returns Hspa. rewrite bind_assoc. returns Htpa.
  by rewrite !bind_ret.
Qed.

Lemma parse_ipv6_complete frame dst src sha spa tha tpa :
  wire_HTYPE frame = 1 → wire_HLEN frame = Ok 6 →
  wire_PTYPE frame = 0x86DD → wire_PLEN frame = Ok 16 →
  mac_bytes_to_str (slice 0 6 frame) = Ok dst →
  mac_bytes_to_str (slice 6 12 frame) = Ok src →
  mac_bytes_to_str (slice 22 28 frame) = Ok sha →
  ipv6_bytes_to_str (slice 28 44 frame) = Ok spa →
  mac_bytes_to_str (slice 44 50 frame) = Ok tha →
  ipv6_bytes_to_str (slice 50 66 frame) = Ok tpa →
  parse_arp_frame frame =
    ([], Ok {| ETH_DEST_MAC := dst; ETH_SRC_MAC := src;
               ETH_TYPE := wire_ETH_TYPE frame; ARP_HTYPE := 1;
               ARP_PTYPE := 0x86DD; ARP_HLEN := 6; ARP_PLEN := 16;
               ARP_OPER := wire_OPER frame; IP_PRO_VER := 6; IP_ADDR_LEN := 16;
               ARP_SHA_MAC_ADDR := sha; ARP_SPA_PRO_ADDR := spa;
               ARP_THA_MAC_ADDR := tha; ARP_TPA_PRO_ADDR := tpa |}).
Proof.
  intros Hh Hl Hp Hpl Hdst Hsrc Hsha Hspa Htha Htpa.
  unfold parse_arp_frame. returns Hdst. returns Hsrc. returns Hl. returns Hpl.
  rewrite Hh, Hp.
  destruct (decide (1 ≠ 1)); [done|]. rewrite bind_ret.
  destruct (decide (6 ≠ 6)); [done|]. rewrite bind_ret.
  destruct (decide (34525 = 2048)); [done|].
  destruct (decide (34525 = 34525)); [|done]. rewrite bind_ret. cbv beta iota.
  destruct (decide (16 ≠ 16)); [done|]. rewrite bind_ret.
  change (Z.to_nat (6 + 16)) with 22%nat.
  returns Hsha. returns Htha.
  destruct (decide (6 = 4)); [done|]. destruct (decide (6 = 6)); [|done].
  rewrite bind_assoc. returns Hspa. rewrite bind_assoc. returns Htpa.
  by rewrite !bind_ret.
Qed.

(** X3.  An IPv4 frame, request or reply or any other operation, decodes
    when its header passes the four checks and the conversions accept its
    six address slices; the decoded fields are these conversions, and no
    warning is logged. *)
Theorem ipv4_frame_decodes frame dst src sha spa tha tpa :
  header_check frame = None → wire_PTYPE frame = 0x0800 →
  mac_bytes_to_str (slice 0 6 frame) = Ok dst →
  mac_bytes_to_str (slice 6 12 frame) = Ok src →
  mac_bytes_to_str (slice 22 28 frame) = Ok sha →
  ipv4_bytes_to_str (slice 28 32 frame) = Ok spa →
  mac_bytes_to_str (slice 32 38 frame) = Ok tha →
  ipv4_bytes_to_str (slice 38 42 frame) = Ok tpa →
  parse_arp_frame frame =
    ([], Ok {| ETH_DEST_MAC := dst; ETH_SRC_MAC := src;
               ETH_TYPE := wire_ETH_TYPE frame; ARP_HTYPE := 1;
               ARP_PTYPE := 0x0800; ARP_HLEN := 6; ARP_PLEN := 4;
               ARP_OPER := wire_OPER frame; IP_PRO_VER := 4; IP_ADDR_LEN := 4;
               ARP_SHA_MAC_ADDR := sha; ARP_SPA_PRO_ADDR := spa;
               ARP_THA_MAC_ADDR := tha; ARP_TPA_PRO_ADDR := tpa |}).
Proof.
  intros Hc Hp.
  destruct (header_check_None frame Hc) as (Hh & Hl & [[_ Hpl]|[Hp6 _]]).
  - by apply parse_ipv4_complete.
  - rewrite Hp in Hp6. discriminate Hp6.
Qed.

(** X4.  An IPv6 frame decodes likewise, its 16-byte protocol addresses
    read from bytes 28-44 and 50-66 and converted by [ipv6_bytes_to_str],
    the target hardware address from bytes 44-50. *)
Theorem ipv6_frame_decodes frame dst src sha spa tha tpa :
  header_check frame = None → wire_PTYPE frame = 0x86DD →
  mac_bytes_to_str (slice 0 6 frame) = Ok dst →
  mac_bytes_to_str (slice 6 12 frame) = Ok src →
  mac_bytes_to_str (slice 22 28 frame) = Ok sha →
  ipv6_bytes_to_str (slice 28 44 frame) = Ok spa →
  mac_bytes_to_str (slice 44 50 frame) = Ok tha →
  ipv6_bytes_to_str (slice 50 66 frame) = Ok tpa →
  parse_arp_frame frame =
    ([], Ok {| ETH_DEST_MAC := dst; ETH_SRC_MAC := src;
               ETH_TYPE := wire_ETH_TYPE frame; ARP_HTYPE := 1;
               ARP_PTYPE := 0x86DD; ARP_HLEN := 6; ARP_PLEN := 16;
               ARP_OPER := wire_OPER frame; IP_PRO_VER := 6; IP_ADDR_LEN := 16;
               ARP_SHA_MAC_ADDR := sha; ARP_SPA_PRO_ADDR := spa;
               ARP_THA_MAC_ADDR := tha; ARP_TPA_PRO_ADDR := tpa |}).
Proof.
  intros Hc Hp.
  destruct (header_check_None frame Hc) as (Hh & Hl & [[Hp4 _]|[_ Hpl]]).
  - rewrite Hp in Hp4. discriminate Hp4.
  - by apply parse_ipv6_complete.
Qed.

(** ** The decoder: rejections and bounds *)

(** X5.  With hardware type 1, a hardware address length other than 6 is
    rejected with the HLEN/HTYPE warning and [ValueError] (LengthMismatch),
    before the protocol type and the protocol address length are looked
    at.  The frame has to reach its two length bytes: on 19 bytes,
    [arp_header[5]] raises before any check. *)
Theorem hardware_length_not_6_is_rejected frame hlen :
  (20 ≤ length frame)%nat → formats_hardware_addresses →
  wire_HTYPE frame = 1 → wire_HLEN frame = Ok hlen → hlen ≠ 6 →
  parse_arp_frame frame = ([HLEN_HTYPE_mismatch hlen 1], Raise ValueError) ∧
  decode_error (parse_arp_frame frame) = Some LengthMismatch.
Proof.
  intros Hlen Hmac Hh Hl Hne. by rewrite (reject_HLEN frame hlen).
Qed.

Lemma wire_PTYPE_take frame : wire_PTYPE (take 42 frame) = wire_PTYPE frame.
Proof. do 42 (destruct frame as [|? frame]; [reflexivity|]). reflexivity. Qed.

(** X6.  The decoder looks at no byte beyond the 66th, and at none beyond
    the 42nd when the protocol type is 0x0800: frames that agree up to
    there have the same outcome, decoded fields, warning and exception
    alike. *)
Theorem decoder_reads_a_bounded_prefix frame1 frame2 :
  (take 66 frame1 = take 66 frame2 →
   parse_arp_frame frame1 = parse_arp_frame frame2) ∧
  (wire_PTYPE frame1 = 0x0800 → take 42 frame1 = take 42 frame2 →
   parse_arp_frame frame1 = parse_arp_frame frame2).
Proof.
  split.
  - intros E. by rewrite (parse_reads_66 frame1), (parse_reads_66 frame2), E.
  - intros Hp E.
    assert (wire_PTYPE frame2 = 0x0800) as Hp2.
    { by rewrite <- wire_PTYPE_take, <- E, wire_PTYPE_take. }
    by rewrite (parse_reads_42 frame1), (parse_reads_42 frame2), E.
Qed.

(** X7.  The decoder logs at most one warning, and only when it rejects a
    frame with [ValueError]: a decoded frame, and a frame that leaves the
    decoder with any other exception, logs nothing. *)
Theorem warning_only_with_a_rejection frame w r :
  parse_arp_frame frame = (w, r) →
  w = [] ∨ ∃ x, w = [x] ∧ r = Raise ValueError.
Proof.
  intros Hp. unfold parse_arp_frame in Hp. wire_fields.
  walk Hp;
    first [ by (exfalso; lia)
          | by (injection Hp as <- <-; left)
          | by (injection Hp as <- <-; right; eexists) ].
Qed.

(** X8.  No frame of fewer than 20 bytes decodes, whatever the conversions
    do: the decoder is left with the [IndexError] of the missing length
    byte, or earlier with an exception of [mac_bytes_to_str] on the cut
    Ethernet addresses, and logs no warning. *)
Theorem frame_under_20_bytes_never_decodes frame :
  (length frame < 20)%nat →
  ∃ e, parse_arp_frame frame = ([], Raise e) ∧
       (e = IndexError ∨ ∃ b, mac_bytes_to_str b = Raise e).
Proof.
  intros Hlen. unfold parse_arp_frame. wire_fields.
  do 2 (match goal with
        | |- ∃ _, call ?c ≫= _ = _ ∧ _ =>
            destruct c as [?|e] eqn:?;
            [rewrite bind_call_Ok|rewrite bind_call_Raise; eauto]
        end).
  unfold index.
  match goal with
  | |- ∃ _, call (match ?t with _ => _ end) ≫= _ = _ ∧ _ =>
      destruct t as [x|] eqn:Hx;
      [rewrite bind_call_Ok|rewrite bind_call_Raise; eauto]
  end.
  match goal with
  | |- ∃ _, call (match ?t with _ => _ end) ≫= _ = _ ∧ _ =>
      destruct t as [y|] eqn:Hy; [|rewrite bind_call_Raise; eauto]
  end.
  apply lookup_lt_Some in Hy. rewrite length_take, length_drop in Hy. lia.
Qed.

(** ** The encoder *)

(** X9.  The encoder hands a frame to [sock.send] only when all four
    conversions returned, and the frame is then their results around the 16
    fixed bytes, whatever their lengths: the encoder checks none. *)
Theorem transmit_sends_what_the_conversions_return
    interface target_ip source_mac source_ip bound frame :
  transmit_arp_request_ipv4 interface target_ip source_mac source_ip =
    Ok (Send bound frame) →
  bound = interface ∧
  ∃ dst sha spa tpa,
    mac_str_to_bytes "ff:ff:ff:ff:ff:ff" = Ok dst ∧
    mac_str_to_bytes source_mac = Ok sha ∧
    IPv4Address_packed source_ip = Ok spa ∧
    IPv4Address_packed target_ip = Ok tpa ∧
    frame = dst ++ sha ++ [x08; x06; x00; x01; x08; x00; x06; x04; x00; x01] ++
            sha ++ spa ++ [x00; x00; x00; x00; x00; x00] ++ tpa ∧
    length frame =
      (16 + length dst + 2 * length sha + length spa + length tpa)%nat.
Proof.
  intros Htx.
  destruct (mac_str_to_bytes "ff:ff:ff:ff:ff:ff") as [dst|e] eqn:Hdst;
    [|unfold transmit_arp_request_ipv4 in Htx; rewrite Hdst in Htx;
      discriminate Htx].
  destruct (mac_str_to_bytes source_mac) as [sha|e] eqn:Hsha;
    [|unfold transmit_arp_request_ipv4 in Htx; rewrite Hdst, Hsha in Htx;
      discriminate Htx].
  destruct (IPv4Address_packed source_ip) as [spa|e] eqn:Hspa;
    [|unfold transmit_arp_request_ipv4 in Htx;
      rewrite Hdst, Hsha, Hspa, fromhex_0806, fromhex_0001, fromhex_0800,
        fromhex_06, fromhex_04 in Htx; discriminate Htx].
  destruct (IPv4Address_packed target_ip) as [tpa|e] eqn:Htpa;
    [|unfold transmit_arp_request_ipv4 in Htx;
      rewrite Hdst, Hsha, Hspa, Htpa, fromhex_0806, fromhex_0001, fromhex_0800,
        fromhex_06, fromhex_04, fromhex_zeros in Htx; discriminate Htx].
  rewrite (transmit_frame _ _ _ _ dst sha spa tpa Hdst Hsha Hspa Htpa) in Htx.
  injection Htx as <- <-.
  split; [done|]. exists dst, sha, spa, tpa. repeat split; try done.
  repeat (rewrite !length_app; cbn [length]). lia.
Qed.

(** The request the encoder builds from valid addresses, decoded. *)
Lemma built_request_decodes interface target_ip source_mac source_ip :
  formats_hardware_addresses → converts_broadcast →
  valid_hardware_address source_mac →
  valid_ipv4_address source_ip →
  valid_ipv4_address target_ip →
  ∃ frame dst_text zero_text,
    transmit_arp_request_ipv4 interface target_ip source_mac source_ip =
      Ok (Send interface frame) ∧
    length frame = 42%nat ∧
    parse_arp_frame frame =
      ([], Ok {| ETH_DEST_MAC := dst_text; ETH_SRC_MAC := source_mac;
                 ETH_TYPE := 0x0806; ARP_HTYPE := 1; ARP_PTYPE := 0x0800;
                 ARP_HLEN := 6; ARP_PLEN := 4; ARP_OPER := 1;
                 IP_PRO_VER := 4; IP_ADDR_LEN := 4;
                 ARP_SHA_MAC_ADDR := source_mac; ARP_SPA_PRO_ADDR := source_ip;
                 ARP_THA_MAC_ADDR := zero_text; ARP_TPA_PRO_ADDR := target_ip |}).
Proof.
  intros Hmac (dst & Hdst & Ldst) (sha & Hsha & Lsha & Fsha)
    (spa & Hspa & Lspa & Fspa) (tpa & Htpa & Ltpa & Ftpa).
  six_bytes dst Ldst. six_bytes sha Lsha. four_bytes spa Lspa. four_bytes tpa Ltpa.
  destruct (Hmac [b; b0; b1; b2; b3; b4] eq_refl) as [dtext Hd].
  destruct (Hmac [x00; x00; x00; x00; x00; x00] eq_refl) as [ztext Hz].
  eexists _, dtext, ztext. split; [by apply transmit_frame|].
  cbn [app]. split; [done|].
  by rewrite (parse_ipv4_complete _ dtext source_mac source_mac source_ip
                ztext target_ip).
Qed.

(** X10.  The prober's own request, when a receive socket captures it, is
    no reply to either loop: the monitor prints it as a request of the
    source for the target and leaves [seen_hosts] alone, and the listener
    drops it, whatever address it listens for. *)
Theorem own_request_is_printed_and_never_recorded
    interface target_ip source_mac source_ip :
  formats_hardware_addresses → converts_broadcast →
  valid_hardware_address source_mac →
  valid_ipv4_address source_ip →
  valid_ipv4_address target_ip →
  ∃ frame dst_text,
    transmit_arp_request_ipv4 interface target_ip source_mac source_ip =
      Ok (Send interface frame) ∧
    (∀ st now,
       monitor_turn st frame now =
         Continue {| seen_hosts := seen_hosts st;
                     stdout := stdout st ++
                       [REQUEST source_mac dst_text target_ip 4] |}) ∧
    (∀ target_mac responses,
       listener_turn target_mac responses frame = Continue responses).
Proof.
  intros Hmac Hb Hm Hs Ht.
  destruct (built_request_decodes interface target_ip source_mac source_ip
              Hmac Hb Hm Hs Ht) as (frame & dtext & ztext & Htx & _ & Hp).
  exists frame, dtext. split; [done|]. split.
  - intros st now. unfold monitor_turn. rewrite Hp. cbn [ARP_OPER].
    by destruct (decide (1 = 1)).
  - intros target_mac responses. unfold listener_turn. rewrite Hp. cbn [ARP_OPER].
    destruct (decide (1 ≠ 2)) as [|Hn]; [done|]. by destruct Hn.
Qed.

(** ** The loops and rejected frames *)

(** X11.  A frame that fails a header check is skipped by both loops: the
    monitor goes on with its state as it was, nothing printed, and the
    listener with its result sequence as it was. *)
Theorem rejected_frame_is_skipped frame err :
  (20 ≤ length frame)%nat → formats_hardware_addresses →
  header_check frame = Some err →
  (∀ st now, monitor_turn st frame now = Continue st) ∧
  (∀ target_mac responses,
     listener_turn target_mac responses frame = Continue responses).
Proof.
  intros Hlen Hmac Hc.
  destruct (header_rejected frame err Hlen Hmac Hc) as (Hr & _ & _).
  destruct (parse_arp_frame frame) as [w r] eqn:Hp. cbn [snd] in Hr. subst r.
  split.
  - intros st now. unfold monitor_turn. by rewrite Hp.
  - intros target_mac responses. unfold listener_turn. by rewrite Hp.
Qed.

(** ** The monitor over a whole run *)

Lemma monitor_turn_elsewhere st frame now st' addr :
  monitor_turn st frame now = Continue st' → reply_from addr frame = false →
  seen_hosts st' !! addr = seen_hosts st !! addr.
Proof.
  intros Ht Hr. unfold reply_from in Hr.
  destruct (parse_arp_frame frame) as [w [f|e]] eqn:Hp.
  - destruct (decide (ARP_OPER f = 2)) as [Ho|Ho].
    + rewrite (monitor_turn_reply st frame now w f Hp Ho) in Ht.
      injection Ht as <-. cbn [seen_hosts].
      apply bool_decide_eq_false in Hr.
      rewrite lookup_insert_ne; [done|]. intros Hs. apply Hr. by split.
    + rewrite (monitor_turn_other st frame now st' Ht); [done|].
      intros w' f' Hp'. rewrite Hp in Hp'. by injection Hp' as _ <-.
  - rewrite (monitor_turn_other st frame now st' Ht); [done|].
    intros w' f' Hp'. rewrite Hp in Hp'. discriminate Hp'.
Qed.

Lemma monitor_turn_keeps st frame now st' addr h :
  monitor_turn st frame now = Continue st' →
  seen_hosts st !! addr = Some h →
  ∃ h', seen_hosts st' !! addr = Some h' ∧ count h ≤ count h'.
Proof.
  intros Ht Hh. destruct (reply_from addr frame) eqn:Hr.
  - apply reply_from_true in Hr as (w & f & Hp & Ho & <-).
    rewrite (monitor_turn_reply st frame now w f Hp Ho) in Ht.
    injection Ht as <-. cbn [seen_hosts]. rewrite lookup_insert_eq.
    eexists. split; [done|]. cbn [count]. unfold count_of. rewrite Hh. lia.
  - rewrite <- (monitor_turn_elsewhere st frame now st' addr Ht Hr) in Hh.
    exists h. split; [done|lia].
Qed.

Lemma monitor_turn_size st frame now st' :
  monitor_turn st frame now = Continue st' →
  (size (seen_hosts st') ≤ S (size (seen_hosts st)))%nat.
Proof.
  intros Ht.
  destruct (parse_arp_frame frame) as [w [f|e]] eqn:Hp.
  - destruct (decide (ARP_OPER f = 2)) as [Ho|Ho].
    + rewrite (monitor_turn_reply st frame now w f Hp Ho) in Ht.
      injection Ht as <-. cbn [seen_hosts]. rewrite map_size_insert.
      destruct (seen_hosts st !! ARP_SPA_PRO_ADDR f); unfold id; lia.
    + rewrite (monitor_turn_other st frame now st' Ht); [lia|].
      intros w' f' Hp'. rewrite Hp in Hp'. by injection Hp' as _ <-.
  - rewrite (monitor_turn_other st frame now st' Ht); [lia|].
    intros w' f' Hp'. rewrite Hp in Hp'. discriminate Hp'.
Qed.

Lemma monitor_loop_size st received st' e :
  monitor_loop st received = (st', e) →
  (size (seen_hosts st') ≤ size (seen_hosts st) + length received)%nat.
Proof.
  revert st. induction received as [|[frame now] received IH]; intros st Hl.
  - injection Hl as <- <-. lia.
  - cbn [monitor_loop length] in *.
    destruct (monitor_turn st frame now) as [st1|e1] eqn:Ht.
    + specialize (IH st1 Hl). pose proof (monitor_turn_size _ _ _ _ Ht). lia.
    + injection Hl as <- <-. lia.
Qed.

Lemma monitor_loop_app st l1 l2 st' :
  monitor_loop st (l1 ++ l2) = (st', None) →
  ∃ st1, monitor_loop st l1 = (st1, None) ∧ monitor_loop st1 l2 = (st', None).
Proof.
  revert st. induction l1 as [|[frame now] l1 IH]; intros st Hl.
  - by exists st.
  - cbn [app monitor_loop] in *.
    destruct (monitor_turn st frame now) as [st1|e1] eqn:Ht; [|done].
    by apply IH.
Qed.

Lemma monitor_loop_elsewhere st received st' addr :
  monitor_loop st received = (st', None) → replies_from addr received = 0 →
  seen_hosts st' !! addr = seen_hosts st !! addr.
Proof.
  revert st. induction received as [|[frame now] received IH]; intros st Hl Hn.
  - by injection Hl as <-.
  - cbn [monitor_loop replies_from] in *.
    destruct (monitor_turn st frame now) as [st1|e1] eqn:Ht; [|done].
    pose proof (replies_from_nonneg addr received).
    destruct (reply_from addr frame) eqn:Hr; [lia|].
    rewrite (IH st1 Hl) by lia.
    by apply (monitor_turn_elsewhere st frame now).
Qed.

Lemma replies_from_elem addr received frame now :
  (frame, now) ∈ received → reply_from addr frame = true →
  0 < replies_from addr received.
Proof.
  induction received as [|[frame' now'] received IH]; [by intros ?%elem_of_nil|].
  intros Hin Hr. cbn [replies_from].
  pose proof (replies_from_nonneg addr received).
  apply elem_of_cons in Hin as [[= <- <-]|Hin].
  - rewrite Hr. lia.
  - specialize (IH Hin Hr). destruct (reply_from addr frame'); lia.
Qed.

(** X12.  The monitor never forgets a host: an entry of [seen_hosts] is
    still there after any further frames, however the run ends, and its
    count has not gone down. *)
Theorem monitor_never_forgets_a_host st received st' e addr h :
  monitor_loop st received = (st', e) →
  seen_hosts st !! addr = Some h →
  ∃ h', seen_hosts st' !! addr = Some h' ∧ count h ≤ count h'.
Proof.
  revert st h. induction received as [|[frame now] received IH]; intros st h Hl Hh.
  - injection Hl as <- <-. exists h. split; [done|lia].
  - cbn [monitor_loop] in Hl.
    destruct (monitor_turn st frame now) as [st1|e1] eqn:Ht.
    + destruct (monitor_turn_keeps st frame now st1 addr h Ht Hh) as (h1 & Hh1 & Hle).
      destruct (IH st1 h1 Hl Hh1) as (h' & Hh' & Hle').
      exists h'. split; [done|lia].
    + injection Hl as <- <-. exists h. split; [done|lia].
Qed.

(** X13.  When a run is interrupted, [seen_hosts] holds exactly the sender
    protocol addresses of the replies received, so the number of hosts
    reported, [len(seen_hosts)], is at most the number of frames
    received. *)
Theorem seen_hosts_are_the_reply_senders received st :
  monitor received = (st, None) →
  (∀ addr,
     is_Some (seen_hosts st !! addr) ↔
     ∃ frame now, (frame, now) ∈ received ∧ reply_from addr frame = true) ∧
  (size (seen_hosts st) ≤ length received)%nat.
Proof.
  intros Hm. unfold monitor in Hm. split.
  - intros addr.
    pose proof (monitor_loop_count _ _ _ addr Hm) as Hn.
    unfold count_of in Hn. cbn [seen_hosts] in Hn. rewrite lookup_empty in Hn.
    split.
    + intros [h Hh]. rewrite Hh in Hn.
      assert (counted {| seen_hosts := ∅; stdout := [] |}) as Hc0.
      { intros a h0. cbn [seen_hosts]. by rewrite lookup_empty. }
      pose proof (monitor_loop_counted _ _ _ Hm Hc0 addr h Hh).
      apply replies_from_positive. lia.
    + intros (frame & now & Hin & Hr).
      pose proof (replies_from_elem addr received frame now Hin Hr).
      destruct (seen_hosts st !! addr); [done|lia].
  - pose proof (monitor_loop_size _ _ _ _ Hm) as Hs.
    cbn [seen_hosts] in Hs. by rewrite map_size_empty in Hs.
Qed.

(** X14.  The last reply wins: after an interrupted run, the entry of an
    address holds the hardware address and the clock reading of the last
    reply received from it, and as its count the number of all replies
    from it. *)
Theorem entry_holds_the_last_reply before frame now after st w f :
  monitor (before ++ (frame, now) :: after) = (st, None) →
  parse_arp_frame frame = (w, Ok f) → ARP_OPER f = 2 →
  replies_from (ARP_SPA_PRO_ADDR f) after = 0 →
  seen_hosts st !! ARP_SPA_PRO_ADDR f =
    Some {| mac := ARP_SHA_MAC_ADDR f;
            count := replies_from (ARP_SPA_PRO_ADDR f) before + 1;
            last_seen := now |}.
Proof.
  intros Hm Hp Ho Hafter. unfold monitor in Hm.
  apply monitor_loop_app in Hm as (st1 & Hb & Hl).
  cbn [monitor_loop] in Hl.
  rewrite (monitor_turn_reply st1 frame now w f Hp Ho) in Hl.
  rewrite (monitor_loop_elsewhere _ _ _ _ Hl Hafter). cbn [seen_hosts].
  rewrite lookup_insert_eq.
  rewrite (monitor_loop_count _ _ _ (ARP_SPA_PRO_ADDR f) Hb).
  unfold count_of at 1. cbn [seen_hosts]. by rewrite lookup_empty.
Qed.

(** ** The listener session *)

Lemma listener_turn_Continue target_mac responses frame r :
  listener_turn target_mac responses frame = Continue r →
  r = responses ∨
  ∃ w f, parse_arp_frame frame = (w, Ok f) ∧ ARP_OPER f = 2 ∧
         ETH_DEST_MAC f = target_mac ∧
         r = responses ++ [(ARP_SPA_PRO_ADDR f, ARP_SHA_MAC_ADDR f)].
Proof.
  unfold listener_turn.
  destruct (parse_arp_frame frame) as [w [f|e]] eqn:Hp.
  - destruct (decide (ARP_OPER f ≠ 2)) as [Ho|Ho]; [intros [= <-]; by left|].
    destruct (decide (ETH_DEST_MAC f ≠ target_mac)) as [Hd|Hd];
      [intros [= <-]; by left|].
    apply dec_stable in Ho. apply dec_stable in Hd.
    intros [= <-]. right. by exists w, f.
  - destruct (except_ValueError e); [intros [= <-]; by left|done].
Qed.

(** A pair the listener appends for some accepted reply. *)
Lemma step_responses target_mac s s' :
  step target_mac s s' →
  responses s' = responses s ∨
  ∃ frame w f, parse_arp_frame frame = (w, Ok f) ∧ ARP_OPER f = 2 ∧
               ETH_DEST_MAC f = target_mac ∧
               responses s' =
                 responses s ++ [(ARP_SPA_PRO_ADDR f, ARP_SHA_MAC_ADDR f)].
Proof.
  intros Hs.
  destruct Hs as [s E|s e E|s E|s E|s e E|s frame E|s E|s E Ht]; try by left.
  destruct (listener_turn target_mac (responses s) frame) as [r|e] eqn:Hl;
    [|by left].
  cbn [responses].
  destruct (listener_turn_Continue _ _ _ _ Hl) as [->|(w & f & Hp & Ho & Hd & ->)];
    [by left|right]. by exists frame, w, f.
Qed.

(** X15.  The result sequence is append-only: along any run of a session
    every later value of [responses] extends the earlier one, and once the
    worker thread has ended, by [return] or by an uncaught exception, it
    does not change any more, with or without [stop]. *)
Theorem responses_only_grow target_mac s s' :
  steps target_mac s s' →
  responses s `prefix_of` responses s' ∧
  (terminated (thread s) = true → responses s' = responses s).
Proof.
  intros Hs. split.
  - induction Hs as [s|s s1 s' H1 _ IH]; [done|].
    transitivity (responses s1); [|done].
    destruct (step_responses target_mac s s1 H1) as [->|(frame & w & f & _ & _ & _ & ->)];
      [done|]. by apply prefix_app_r.
  - intros Ht. by destruct (steps_terminated target_mac s s' Hs Ht).
Qed.

(** X16.  Whatever frames arrive and however the steps interleave, every
    pair in the result sequence is the sender protocol address and sender
    hardware address of some frame that decoded with operation 2 and the
    Ethernet destination the listener was started for. *)
Theorem responses_hold_only_accepted_replies target_mac s pair :
  steps target_mac listen_for_arp_reply_ipv4 s →
  pair ∈ responses s →
  ∃ frame w f,
    parse_arp_frame frame = (w, Ok f) ∧ ARP_OPER f = 2 ∧
    ETH_DEST_MAC f = target_mac ∧
    pair = (ARP_SPA_PRO_ADDR f, ARP_SHA_MAC_ADDR f).
Proof.
  intros Hs. revert pair.
  eapply (rtc_ind_r (λ s, ∀ pair, pair ∈ responses s → _)); [| |exact Hs].
  - intros pair Hin. cbn [responses listen_for_arp_reply_ipv4] in Hin.
    by apply elem_of_nil in Hin.
  - intros s1 s2 _ Hstep IH pair Hin.
    destruct (step_responses target_mac s1 s2 Hstep)
      as [E|(frame & w & f & Hp & Ho & Hd & E)]; rewrite E in Hin.
    + by apply IH.
    + apply elem_of_app in Hin as [Hin|Hin]; [by apply IH|].
      apply list_elem_of_singleton in Hin as ->. by exists frame, w, f.
Qed.

(** What holds of the stop signal at every point of a session. *)
Lemma step_signal target_mac s s' :
  step target_mac s s' →
  (should_stop s = true → main s ≠ BeforeStop) →
  (should_stop s = true → should_stop s' = true) ∧
  (should_stop s' = true → main s' ≠ BeforeStop).
Proof.
  intros Hs Hinv.
  destruct Hs as [s E|s e E|s E|s E|s e E|s frame E|s E|s E Ht];
    try destruct (listener_turn target_mac (responses s) frame);
    cbn; split; done.
Qed.

Lemma steps_signal target_mac s :
  steps target_mac listen_for_arp_reply_ipv4 s →
  should_stop s = true → main s ≠ BeforeStop.
Proof.
  intros Hs. eapply (rtc_ind_r (λ s, should_stop s = true → main s ≠ BeforeStop));
    [| |exact Hs].
  - done.
  - intros s1 s2 _ Hstep IH. by apply (step_signal target_mac s1 s2).
Qed.

(** X17.  The listener runs until it is stopped: in no interleaving does
    the worker return from its loop before [stop] has been called, and the
    stop signal, once set, stays set. *)
Theorem worker_runs_until_stop_is_called target_mac s :
  steps target_mac listen_for_arp_reply_ipv4 s →
  (thread s = Returned → main s ≠ BeforeStop) ∧
  (∀ s', steps target_mac s s' → should_stop s = true → should_stop s' = true).
Proof.
  intros Hs. split.
  - intros Hr. apply (steps_signal target_mac s Hs).
    by apply (steps_settled target_mac s Hs).
  - intros s' Hs'. pose proof (steps_signal target_mac s Hs) as Hinv.
    induction Hs' as [s|s s1 s' H1 _ IH]; [done|]. intros Hset.
    destruct (step_signal target_mac s s1 H1 Hinv) as [Hkeep Hinv1].
    apply IH; [|done|by apply Hkeep].
    by eapply rtc_r.
Qed.

(** X18.  [stop] cannot hang for lack of a way out: from every state in
    which the caller waits in [thr.join()], the worker has a run to its end
    after which [stop] returns. *)
Theorem stop_can_always_return target_mac s :
  steps target_mac listen_for_arp_reply_ipv4 s →
  main s = Joining →
  ∃ s', steps target_mac s s' ∧ main s' = AfterStop.
Proof.
  intros Hs Hm.
  destruct (steps_settled target_mac s Hs) as (Hflag & _ & _).
  assert (should_stop s = true) as Hset by (apply Hflag; by rewrite Hm).
  assert (∀ s0, main s0 = Joining → terminated (thread s0) = true →
                ∃ s', steps target_mac s0 s' ∧ main s' = AfterStop) as Hjoin.
  { intros s0 Hm0 Ht0.
    exists {| should_stop := should_stop s0; responses := responses s0;
              thread := thread s0; main := AfterStop |}.
    split; [|done]. apply rtc_once. by apply step_join. }
  assert (∀ s0, main s0 = Joining → should_stop s0 = true → thread s0 = LoopHead →
                ∃ s', steps target_mac s0 s' ∧ main s' = AfterStop) as Hhead.
  { intros s0 Hm0 Hs0 Ht0.
    destruct (Hjoin {| should_stop := should_stop s0; responses := responses s0;
                       thread := if should_stop s0 then Returned else Receiving;
                       main := main s0 |}) as (s' & Hs' & Hm').
    - done.
    - cbn. by rewrite Hs0.
    - exists s'. split; [|done]. eapply rtc_l; [|exact Hs']. by apply step_is_set. }
  destruct (thread s) as [| | | |e] eqn:Ht.
  - destruct (Hhead {| should_stop := should_stop s; responses := responses s;
                       thread := LoopHead; main := main s |}) as (s' & Hs' & Hm');
      [done..|].
    exists s'. split; [|done]. eapply rtc_l; [|exact Hs']. by apply step_socket.
  - by apply Hhead.
  - destruct (Hhead {| should_stop := should_stop s; responses := responses s;
                       thread := LoopHead; main := main s |}) as (s' & Hs' & Hm');
      [done..|].
    exists s'. split; [|done]. eapply rtc_l; [|exact Hs']. by apply step_recv_nothing.
  - apply Hjoin; [done|]. by rewrite Ht.
  - apply Hjoin; [done|]. by rewrite Ht.
Qed.

(** ** The prober's transmit loop *)

Lemma probe_transmit_app interface tx_mac_address before after sent :
  probe_transmit interface tx_mac_address before = (sent, None) →
  probe_transmit interface tx_mac_address (before ++ after) =
    (sent ++ fst (probe_transmit interface tx_mac_address after),
     snd (probe_transmit interface tx_mac_address after)).
Proof.
  revert sent. induction before as [|host before IH]; intros sent Hb.
  - injection Hb as <-. cbn [app].
    by destruct (probe_transmit interface tx_mac_address after).
  - cbn [app probe_transmit] in *.
    destruct (transmit_arp_request_ipv4 interface host tx_mac_address "0.0.0.0")
      as [t|e]; [|done].
    destruct (probe_transmit interface tx_mac_address before) as [more e] eqn:Hmore.
    injection Hb as <- ->. by rewrite (IH more eq_refl).
Qed.

(** X19.  The transmit loop sends its requests in the order of the hosts:
    the request sent at place [k] is the one built for the host at place
    [k], from the transmit address and the unspecified source 0.0.0.0; with
    valid addresses it is a frame of 42 bytes that decodes to a request of
    the transmit address and 0.0.0.0 for that host.  This is said of each
    request sent, not of how many are: it holds as well of a run that ends
    before the last host. *)
Theorem probe_sends_the_requests_in_host_order
    interface tx_mac_address hosts k sent :
  fst (probe_transmit interface tx_mac_address hosts) !! k = Some sent →
  ∃ host,
    hosts !! k = Some host ∧
    transmit_arp_request_ipv4 interface host tx_mac_address "0.0.0.0" = Ok sent ∧
    (formats_hardware_addresses → converts_broadcast →
     valid_hardware_address tx_mac_address →
     valid_ipv4_address "0.0.0.0" → valid_ipv4_address host →
     ∃ frame f,
       sent = Send interface frame ∧ length frame = 42%nat ∧
       parse_arp_frame frame = ([], Ok f) ∧ ARP_OPER f = 1 ∧
       ARP_SHA_MAC_ADDR f = tx_mac_address ∧
       ARP_SPA_PRO_ADDR f = "0.0.0.0" ∧ ARP_TPA_PRO_ADDR f = host).
Proof.
  revert k. induction hosts as [|host hosts IH]; intros k Hk; [done|].
  cbn [probe_transmit] in Hk.
  destruct (transmit_arp_request_ipv4 interface host tx_mac_address "0.0.0.0")
    as [t|e] eqn:Htx; [|done].
  destruct (probe_transmit interface tx_mac_address hosts) as [more e] eqn:Hmore.
  destruct k as [|k]; cbn [fst] in Hk.
  - injection Hk as ->. exists host. split; [done|]. split; [done|].
    intros Hmac Hb Hm Hs Hh.
    destruct (built_request_decodes interface host tx_mac_address "0.0.0.0"
                Hmac Hb Hm Hs Hh) as (frame & dtext & ztext & Htx' & Hlen & Hp).
    rewrite Htx in Htx'. injection Htx' as ->.
    eexists frame, _. repeat split; done.
  - destruct (IH k Hk) as (host' & Hl & Hrest). by exists host'.
Qed.

(** X20.  The transmit loop ends at the first host whose request cannot be
    built: the requests for the hosts before it have been sent, none is
    sent for it or for any host after it, and its exception leaves the
    loop. *)
Theorem probe_stops_at_the_first_failure
    interface tx_mac_address before bad after sent e :
  probe_transmit interface tx_mac_address before = (sent, None) →
  transmit_arp_request_ipv4 interface bad tx_mac_address "0.0.0.0" = Raise e →
  probe_transmit interface tx_mac_address (before ++ bad :: after) =
    (sent, Some e) ∧
  length sent = length before.
Proof.
  intros Hb Hbad. split.
  - rewrite (probe_transmit_app _ _ _ _ _ Hb). cbn [probe_transmit].
    rewrite Hbad. cbn [fst snd]. by rewrite app_nil_r.
  - clear Hbad. revert sent Hb.
    induction before as [|host before IH]; intros sent Hb.
    + by injection Hb as <-.
    + cbn [probe_transmit] in Hb.
      destruct (transmit_arp_request_ipv4 interface host tx_mac_address "0.0.0.0")
        as [t|e']; [|done].
      destruct (probe_transmit interface tx_mac_address before) as [more e'] eqn:Hmore.
      injection Hb as <- ->. cbn [length]. by rewrite (IH more eq_refl).
Qed.

End CodecProperties.

(** * The properties at concrete frames *)

Lemma plain_formats_hardware_addresses : @formats_hardware_addresses plain.
Proof. intros b _. by eexists. Qed.

(** The scenario's request is what the encoder builds, and it decodes to
    the addresses it was built from. *)
Lemma request_round_trip_witness :
  ∃ frame f,
    @transmit_arp_request_ipv4 plain "eth0" "10.0.0.2" "02:00:00:00:00:01" "10.0.0.1" =
      Ok (Send "eth0" frame) ∧
    @parse_arp_frame plain frame = ([], Ok f) ∧
    ARP_SHA_MAC_ADDR f = "02:00:00:00:00:01" ∧
    ARP_SPA_PRO_ADDR f = "10.0.0.1" ∧
    ARP_TPA_PRO_ADDR f = "10.0.0.2" ∧
    ARP_OPER f = 1.
Proof.
  apply (@request_round_trip plain).
  - apply plain_formats_hardware_addresses.
  - eexists. split; reflexivity.
  - eexists. repeat split; reflexivity.
  - eexists. repeat split; reflexivity.
  - eexists. repeat split; reflexivity.
Defined.

Lemma request_frame_layout_witness :
  ∃ frame,
    @transmit_arp_request_ipv4 plain "eth0" "10.0.0.2" "02:00:00:00:00:01" "10.0.0.1" =
      Ok (Send "eth0" frame) ∧
    length frame = 42%nat ∧
    frame = scenario_request.
Proof.
  destruct (@request_frame_layout plain "eth0" "10.0.0.2" "02:00:00:00:00:01"
              "10.0.0.1" (hex "020000000001") (hex "0a000001") (hex "0a000002"))
    as (frame & Ht & Hlen & Hf & _); try reflexivity.
  exists frame. split; [done|]. split; [done|]. rewrite Hf. reflexivity.
Defined.

(** A frame of 14 bytes leaves both loops with [IndexError]. *)
Lemma frame_without_length_bytes_witness :
  @parse_arp_frame plain ethernet_header_only = ([], Raise IndexError) ∧
  (∀ st now, @monitor_turn plain st ethernet_header_only now = Uncaught IndexError) ∧
  (∀ target_mac responses,
     @listener_turn plain target_mac responses ethernet_header_only =
       Uncaught IndexError).
Proof.
  apply (@frame_without_length_bytes_leaves_the_loops plain).
  - vm_compute. lia.
  - apply plain_formats_hardware_addresses.
Defined.

(** The monitor run that such a frame ends: the reply that follows it is
    never seen. *)
Example monitor_run_ended_by_short_frame :
  @monitor plain [(ethernet_header_only, 1%Q); (scenario_reply, 2%Q)] =
    ({| seen_hosts := ∅; stdout := [] |}, Some IndexError).
Proof. reflexivity. Qed.

(** C3 as stated fails at two frames shorter than the 42 bytes of an IPv4
    frame: one leaves the decoder with [IndexError], which is no decode
    error at all; the other is rejected for its hardware type, not for its
    length. *)
Lemma short_frames_are_not_reported_truncated :
  ((length ethernet_header_only < 42)%nat ∧
   @parse_arp_frame plain ethernet_header_only = ([], Raise IndexError) ∧
   decode_error (@parse_arp_frame plain ethernet_header_only) ≠ Some Truncated) ∧
  ((length arp_header_only_htype_2 < 42)%nat ∧
   wire_PTYPE arp_header_only_htype_2 = 0x0800 ∧
   @parse_arp_frame plain arp_header_only_htype_2 =
     ([HTYPE_is_not_1], Raise ValueError) ∧
   decode_error (@parse_arp_frame plain arp_header_only_htype_2) =
     Some UnsupportedHardwareType).
Proof.
  split.
  - split; [vm_compute; lia|]. split; [reflexivity|]. vm_compute. discriminate.
  - split; [vm_compute; lia|]. repeat split.
Defined.

(** With conversions that format the bytes they are given, a request one
    byte short of its 42 is not rejected either: it decodes, to a target
    address of three octets. *)
Example request_cut_short_decodes :
  (length request_cut_short < 42)%nat ∧
  ∃ f, @parse_arp_frame plain request_cut_short = ([], Ok f) ∧
       ARP_OPER f = 1 ∧ ARP_TPA_PRO_ADDR f = "10.0.0".
Proof.
  split; [vm_compute; lia|]. eexists. repeat split; reflexivity.
Qed.

Lemma short_frame_is_judged_by_its_header_witness :
  @parse_arp_frame plain arp_header_only_htype_2 = ([HTYPE_is_not_1], Raise ValueError) ∧
  decode_error (@parse_arp_frame plain arp_header_only_htype_2) =
    Some UnsupportedHardwareType.
Proof.
  pose proof (@short_frame_is_judged_by_its_header plain arp_header_only_htype_2)
    as Hj.
  change (header_check arp_header_only_htype_2) with (Some UnsupportedHardwareType) in Hj.
  destruct Hj as (_ & He & _).
  - vm_compute. lia.
  - apply plain_formats_hardware_addresses.
  - split; [reflexivity|exact He].
Defined.

(** A frame of 16 bytes, hardware type 2: the decoder leaves with
    [IndexError] before its hardware-type check. *)
Lemma hardware_type_is_checked_late_witness :
  wire_HTYPE hardware_type_2_only = 2 ∧
  @parse_arp_frame plain hardware_type_2_only = ([], Raise IndexError) ∧
  decode_error (@parse_arp_frame plain hardware_type_2_only) = None.
Proof.
  split; [reflexivity|].
  destruct (@hardware_type_is_checked_after_the_length_bytes plain
              hardware_type_2_only) as (Hshort & _).
  - apply plain_formats_hardware_addresses.
  - vm_compute. discriminate.
  - apply Hshort. vm_compute. lia.
Defined.

(** A frame of 19 bytes, hardware type 1, hardware address length 6,
    protocol type 0x0806: the decoder leaves with [IndexError] before its
    protocol-type check. *)
Lemma protocol_type_is_checked_late_witness :
  wire_PTYPE protocol_type_0806_cut = 0x0806 ∧
  length protocol_type_0806_cut = 19%nat ∧
  @parse_arp_frame plain protocol_type_0806_cut = ([], Raise IndexError) ∧
  decode_error (@parse_arp_frame plain protocol_type_0806_cut) = None.
Proof.
  split; [reflexivity|].
  pose proof (@protocol_type_is_checked_after_the_length_bytes plain
                protocol_type_0806_cut) as Hc.
  change (wire_PLEN protocol_type_0806_cut) with (@Raise Z IndexError) in Hc.
  apply Hc.
  - apply plain_formats_hardware_addresses.
  - reflexivity.
  - reflexivity.
Defined.

(** C7 as stated fails where the clock is set back between two replies:
    the second reply raises the count to 2 and lowers the timestamp from
    10 to 5. *)
Lemma timestamp_follows_a_clock_set_back :
  seen_hosts (fst (@monitor plain [(scenario_reply, 10%Q)])) !! "10.0.0.2" =
    Some {| mac := "02:00:00:00:00:02"; count := 1; last_seen := 10%Q |} ∧
  seen_hosts (fst (@monitor plain [(scenario_reply, 10%Q); (scenario_reply, 5%Q)]))
      !! "10.0.0.2" =
    Some {| mac := "02:00:00:00:00:02"; count := 2; last_seen := 5%Q |} ∧
  (5 < 10)%Q.
Proof. split; [|split]; reflexivity. Defined.

Lemma seen_hosts_counts_replies_witness :
  ∃ st h,
    @monitor plain [(scenario_reply, 1%Q); (scenario_reply, 2%Q)] = (st, None) ∧
    seen_hosts st = {["10.0.0.2" := h]} ∧ count h = 2.
Proof.
  destruct (@seen_hosts_counts_replies plain) as (_ & _ & _ & _ & Htwo).
  apply Htwo; reflexivity.
Defined.

(** A session in which the worker takes in one reply, the caller then
    stops it, and [stop] returns that one pair. *)
Lemma result_is_settled_witness :
  ∃ s,
    @steps plain "02:00:00:00:00:01" listen_for_arp_reply_ipv4 s ∧
    main s = AfterStop ∧
    responses s = [("10.0.0.2", "02:00:00:00:00:02")] ∧
    ∀ s', @steps plain "02:00:00:00:00:01" s s' →
          responses s' = responses s ∧ thread s' = thread s.
Proof.
  set (target := "02:00:00:00:00:01").
  set (pair := [("10.0.0.2", "02:00:00:00:00:02")]).
  set (s1 := {| should_stop := false; responses := []; thread := LoopHead;
                main := BeforeStop |}).
  set (s2 := {| should_stop := false; responses := []; thread := Receiving;
                main := BeforeStop |}).
  set (s3 := {| should_stop := false; responses := pair; thread := LoopHead;
                main := BeforeStop |}).
  set (s4 := {| should_stop := true; responses := pair; thread := LoopHead;
                main := Joining |}).
  set (s5 := {| should_stop := true; responses := pair; thread := Returned;
                main := Joining |}).
  set (s6 := {| should_stop := true; responses := pair; thread := Returned;
                main := AfterStop |}).
  assert (@steps plain target listen_for_arp_reply_ipv4 s6) as Hrun.
  { apply (rtc_l _ _ s1); [exact (step_socket target listen_for_arp_reply_ipv4 eq_refl)|].
    apply (rtc_l _ _ s2); [exact (step_is_set target s1 eq_refl)|].
    apply (rtc_l _ _ s3); [exact (step_recv_frame target s2 scenario_reply eq_refl)|].
    apply (rtc_l _ _ s4); [apply (step_set target s3); discriminate|].
    apply (rtc_l _ _ s5); [exact (step_is_set target s4 eq_refl)|].
    apply (rtc_l _ _ s6); [exact (step_join target s5 eq_refl eq_refl)|].
    apply rtc_refl. }
  exists s6. split; [exact Hrun|]. split; [reflexivity|]. split; [reflexivity|].
  apply (@result_is_settled_once_stop_returns plain target s6 Hrun). reflexivity.
Defined.

(** C9 as stated fails in a session whose worker is ended by an error of
    [sock.recv] while the stop signal is still clear: [stop] is called
    afterwards and returns, and the loop has not observed the signal and
    exited.  No frame is received in this run, so no conversion is
    called. *)
Lemma stop_returns_after_the_worker_died :
  @steps plain "02:00:00:00:00:01" listen_for_arp_reply_ipv4 session_worker_died ∧
  should_stop session_worker_died = false ∧
  @steps plain "02:00:00:00:00:01" session_worker_died session_stopped_after_death ∧
  main session_stopped_after_death = AfterStop ∧
  thread session_stopped_after_death ≠ Returned ∧
  ¬ @stop_waits_for_the_loop plain "02:00:00:00:00:01".
Proof.
  set (target := "02:00:00:00:00:01").
  set (s1 := {| should_stop := false; responses := []; thread := LoopHead;
                main := BeforeStop |}).
  set (s2 := {| should_stop := false; responses := []; thread := Receiving;
                main := BeforeStop |}).
  set (s4 := {| should_stop := true; responses := [];
                thread := Died (OtherException "OSError"); main := Joining |}).
  assert (@steps plain target listen_for_arp_reply_ipv4 session_worker_died)
    as Hdied.
  { apply (rtc_l _ _ s1); [exact (step_socket target listen_for_arp_reply_ipv4 eq_refl)|].
    apply (rtc_l _ _ s2); [exact (step_is_set target s1 eq_refl)|].
    apply (rtc_l _ _ session_worker_died);
      [exact (step_recv_error target s2 (OtherException "OSError") eq_refl)|].
    apply rtc_refl. }
  assert (@steps plain target session_worker_died session_stopped_after_death)
    as Hstop.
  { apply (rtc_l _ _ s4); [apply (step_set target session_worker_died); discriminate|].
    apply (rtc_l _ _ session_stopped_after_death);
      [exact (step_join target s4 eq_refl eq_refl)|].
    apply rtc_refl. }
  split; [exact Hdied|]. split; [reflexivity|]. split; [exact Hstop|].
  split; [reflexivity|]. split; [discriminate|].
  intros Hw.
  assert (@steps plain target listen_for_arp_reply_ipv4 session_stopped_after_death)
    as Hrun by (unfold steps in *; etrans; eassumption).
  specialize (Hw session_stopped_after_death Hrun eq_refl).
  discriminate Hw.
Defined.

(** With conversions that format the bytes they are given, a frame that
    ends after its two address-length bytes decodes, to operation 0 and
    empty addresses, and decodes to other fields once the rest of the frame
    is appended.  Conversions that reject a slice shorter than an address
    reject such a frame instead. *)
Example cut_reply_decodes_with_lenient_conversions :
  (∃ f, @parse_arp_frame plain reply_head = ([], Ok f) ∧
        ARP_OPER f = 0 ∧ ARP_SPA_PRO_ADDR f = "" ∧ ARP_SHA_MAC_ADDR f = "") ∧
  (∃ f, @parse_arp_frame plain (reply_head ++ reply_rest) = ([], Ok f) ∧
        ARP_OPER f = 2 ∧ ARP_SPA_PRO_ADDR f = "10.0.0.2" ∧
        ARP_SHA_MAC_ADDR f = "02:00:00:00:00:02") ∧
  @parse_arp_frame plain (reply_head ++ reply_rest) ≠ @parse_arp_frame plain reply_head.
Proof.
  split; [|split].
  - eexists. repeat split; reflexivity.
  - eexists. repeat split; reflexivity.
  - vm_compute. discriminate.
Qed.

(** The scenario's reply with ethertype 0x86DD and operation code 9 in
    place of its own decodes as the reply does, but for these two fields. *)
Lemma ethertype_and_operation_witness :
  @parse_arp_frame plain
    (with_ethertype_and_operation [x86; xdd] [x00; x09] scenario_reply) =
    retagged 0x86DD 9 (@parse_arp_frame plain scenario_reply).
Proof.
  apply (@ethertype_and_operation_are_not_checked plain scenario_reply
           [x86; xdd] [x00; x09]).
  - vm_compute. lia.
  - reflexivity.
  - reflexivity.
Defined.

(** ** The further properties at concrete frames *)

Lemma decoded_frame_keeps_the_header_invariant_witness :
  ∃ f, @parse_arp_frame plain ipv6_reply = ([], Ok f) ∧
       ARP_HTYPE f = 1 ∧ ARP_HLEN f = 6 ∧ ARP_PLEN f = IP_ADDR_LEN f ∧
       IP_ADDR_LEN f = 16.
Proof.
  eexists. split; [reflexivity|].
  destruct (@decoded_frame_keeps_the_header_invariant plain ipv6_reply [] _ eq_refl)
    as (_ & Hh & Hl & Hpl & _). repeat split; done.
Defined.

Lemma decoded_addresses_witness :
  @mac_bytes_to_str plain (slice 22 28 scenario_reply) = Ok "02:00:00:00:00:02" ∧
  @ipv4_bytes_to_str plain (slice 28 32 scenario_reply) = Ok "10.0.0.2".
Proof.
  destruct (@decoded_addresses_come_from_fixed_offsets plain scenario_reply [] _ eq_refl)
    as (_ & _ & Hsha & Hv4 & _).
  split; [exact Hsha|]. by apply Hv4.
Defined.

Lemma ipv4_frame_decodes_witness :
  ∃ f, @parse_arp_frame plain scenario_reply = ([], Ok f) ∧
       ARP_OPER f = 2 ∧ ARP_SPA_PRO_ADDR f = "10.0.0.2" ∧
       ARP_THA_MAC_ADDR f = "02:00:00:00:00:01".
Proof.
  eexists. split.
  - apply (@ipv4_frame_decodes plain scenario_reply "02:00:00:00:00:01"
             "02:00:00:00:00:02" "02:00:00:00:00:02" "10.0.0.2"
             "02:00:00:00:00:01" "10.0.0.1"); reflexivity.
  - repeat split.
Defined.

Lemma ipv6_frame_decodes_witness :
  ∃ f, @parse_arp_frame plain ipv6_reply = ([], Ok f) ∧
       IP_PRO_VER f = 6 ∧
       ARP_SPA_PRO_ADDR f = "2001:0db8:0000:0000:0000:0000:0000:0002" ∧
       ARP_SHA_MAC_ADDR f = "02:00:00:00:00:02".
Proof.
  eexists. split.
  - apply (@ipv6_frame_decodes plain ipv6_reply "02:00:00:00:00:01"
             "02:00:00:00:00:02" "02:00:00:00:00:02"
             "2001:0db8:0000:0000:0000:0000:0000:0002" "02:00:00:00:00:01"
             "2001:0db8:0000:0000:0000:0000:0000:0001"); reflexivity.
  - repeat split.
Defined.

Lemma hardware_length_not_6_witness :
  @parse_arp_frame plain arp_header_only_hlen_8 =
    ([HLEN_HTYPE_mismatch 8 1], Raise ValueError) ∧
  decode_error (@parse_arp_frame plain arp_header_only_hlen_8) = Some LengthMismatch.
Proof.
  apply (@hardware_length_not_6_is_rejected plain arp_header_only_hlen_8 8).
  - vm_compute. lia.
  - apply plain_formats_hardware_addresses.
  - reflexivity.
  - reflexivity.
  - lia.
Defined.

Lemma decoder_reads_a_bounded_prefix_witness :
  @parse_arp_frame plain scenario_request = @parse_arp_frame plain padded_request.
Proof.
  destruct (@decoder_reads_a_bounded_prefix plain scenario_request padded_request)
    as (_ & H42). apply H42; reflexivity.
Defined.

Lemma warning_only_with_a_rejection_witness :
  [HTYPE_is_not_1] = [] ∨
  ∃ x, [HTYPE_is_not_1] = [x] ∧ Raise ValueError = @Raise arp_frame ValueError.
Proof.
  apply (@warning_only_with_a_rejection plain arp_header_only_htype_2).
  reflexivity.
Defined.

Lemma frame_under_20_bytes_witness :
  ∃ e, @parse_arp_frame plain [] = ([], Raise e) ∧
       (e = IndexError ∨ ∃ b, @mac_bytes_to_str plain b = Raise e).
Proof.
  apply (@frame_under_20_bytes_never_decodes plain []). cbn. lia.
Defined.

Lemma own_request_witness :
  ∃ frame dst_text,
    @transmit_arp_request_ipv4 plain "eth0" "10.0.0.2" "02:00:00:00:00:01" "0.0.0.0" =
      Ok (Send "eth0" frame) ∧
    (∀ st now,
       @monitor_turn plain st frame now =
         Continue {| seen_hosts := seen_hosts st;
                     stdout := stdout st ++
                       [REQUEST "02:00:00:00:00:01" dst_text "10.0.0.2" 4] |}) ∧
    (∀ target_mac responses,
       @listener_turn plain target_mac responses frame = Continue responses).
Proof.
  apply (@own_request_is_printed_and_never_recorded plain).
  - apply plain_formats_hardware_addresses.
  - eexists. split; reflexivity.
  - eexists. repeat split; reflexivity.
  - eexists. repeat split; reflexivity.
  - eexists. repeat split; reflexivity.
Defined.

Lemma rejected_frame_is_skipped_witness :
  (∀ st now, @monitor_turn plain st arp_header_only_htype_2 now = Continue st) ∧
  (∀ target_mac responses,
     @listener_turn plain target_mac responses arp_header_only_htype_2 =
       Continue responses).
Proof.
  apply (@rejected_frame_is_skipped plain arp_header_only_htype_2
           UnsupportedHardwareType).
  - vm_compute. lia.
  - apply plain_formats_hardware_addresses.
  - reflexivity.
Defined.

(** A request and then a frame that ends the run leave the entry there. *)
Lemma monitor_never_forgets_witness :
  ∃ h', seen_hosts
          (fst (@monitor_loop plain seen_once
                  [(scenario_request, 2%Q); (ethernet_header_only, 3%Q)]))
          !! "10.0.0.2" = Some h' ∧
        1 ≤ count h'.
Proof.
  apply (@monitor_never_forgets_a_host plain seen_once
           [(scenario_request, 2%Q); (ethernet_header_only, 3%Q)] _ (Some IndexError)
           "10.0.0.2"
           {| mac := "02:00:00:00:00:02"; count := 1; last_seen := 1%Q |});
    reflexivity.
Defined.

Lemma seen_hosts_are_the_reply_senders_witness :
  (size (seen_hosts
           (fst (@monitor plain [(scenario_reply, 1%Q); (scenario_request, 2%Q);
                                 (scenario_reply, 3%Q)]))) ≤ 3)%nat.
Proof.
  apply (@seen_hosts_are_the_reply_senders plain
           [(scenario_reply, 1%Q); (scenario_request, 2%Q); (scenario_reply, 3%Q)]).
  reflexivity.
Defined.

Lemma entry_holds_the_last_reply_witness :
  seen_hosts
    (fst (@monitor plain [(scenario_reply, 1%Q); (scenario_reply, 2%Q);
                          (scenario_request, 3%Q)]))
    !! "10.0.0.2" =
  Some {| mac := "02:00:00:00:00:02"; count := 2; last_seen := 2%Q |}.
Proof.
  exact (@entry_holds_the_last_reply plain [(scenario_reply, 1%Q)] scenario_reply
           2%Q [(scenario_request, 3%Q)] _ []
           {| ETH_DEST_MAC := "02:00:00:00:00:01"; ETH_SRC_MAC := "02:00:00:00:00:02";
              ETH_TYPE := 0x0806; ARP_HTYPE := 1; ARP_PTYPE := 0x0800;
              ARP_HLEN := 6; ARP_PLEN := 4; ARP_OPER := 2; IP_PRO_VER := 4;
              IP_ADDR_LEN := 4; ARP_SHA_MAC_ADDR := "02:00:00:00:00:02";
              ARP_SPA_PRO_ADDR := "10.0.0.2";
              ARP_THA_MAC_ADDR := "02:00:00:00:00:01";
              ARP_TPA_PRO_ADDR := "10.0.0.1" |}
           eq_refl eq_refl eq_refl eq_refl).
Defined.

Lemma run_to_one_reply :
  @steps plain "02:00:00:00:00:01" listen_for_arp_reply_ipv4 session_after_one_reply.
Proof.
  set (target := "02:00:00:00:00:01").
  set (s1 := {| should_stop := false; responses := []; thread := LoopHead;
                main := BeforeStop |}).
  set (s2 := {| should_stop := false; responses := []; thread := Receiving;
                main := BeforeStop |}).
  apply (rtc_l _ _ s1); [exact (step_socket target listen_for_arp_reply_ipv4 eq_refl)|].
  apply (rtc_l _ _ s2); [exact (step_is_set target s1 eq_refl)|].
  apply (rtc_l _ _ session_after_one_reply);
    [exact (step_recv_frame target s2 scenario_reply eq_refl)|].
  apply rtc_refl.
Qed.

Lemma run_into_stop :
  @steps plain "02:00:00:00:00:01" listen_for_arp_reply_ipv4 session_in_stop.
Proof.
  apply rtc_once. apply (step_set "02:00:00:00:00:01" listen_for_arp_reply_ipv4).
  discriminate.
Qed.

Lemma responses_only_grow_witness :
  [] `prefix_of` responses session_after_one_reply.
Proof.
  apply (@responses_only_grow plain "02:00:00:00:00:01" listen_for_arp_reply_ipv4
           session_after_one_reply run_to_one_reply).
Defined.

Lemma responses_hold_only_accepted_replies_witness :
  ∃ frame w f,
    @parse_arp_frame plain frame = (w, Ok f) ∧ ARP_OPER f = 2 ∧
    ETH_DEST_MAC f = "02:00:00:00:00:01" ∧
    ("10.0.0.2", "02:00:00:00:00:02") = (ARP_SPA_PRO_ADDR f, ARP_SHA_MAC_ADDR f).
Proof.
  apply (@responses_hold_only_accepted_replies plain "02:00:00:00:00:01"
           session_after_one_reply _ run_to_one_reply).
  apply list_elem_of_singleton. reflexivity.
Defined.

Lemma run_to_return :
  @steps plain "02:00:00:00:00:01" listen_for_arp_reply_ipv4 session_returned.
Proof.
  set (target := "02:00:00:00:00:01").
  set (s2 := {| should_stop := true; responses := []; thread := LoopHead;
                main := Joining |}).
  apply (rtc_l _ _ session_in_stop);
    [apply (step_set target listen_for_arp_reply_ipv4); discriminate|].
  apply (rtc_l _ _ s2); [exact (step_socket target session_in_stop eq_refl)|].
  apply (rtc_l _ _ session_returned); [exact (step_is_set target s2 eq_refl)|].
  apply rtc_refl.
Qed.

Lemma worker_runs_until_stop_witness :
  thread session_returned = Returned ∧ main session_returned ≠ BeforeStop.
Proof.
  split; [reflexivity|].
  apply (@worker_runs_until_stop_is_called plain "02:00:00:00:00:01"
           session_returned run_to_return). reflexivity.
Defined.

Lemma stop_can_always_return_witness :
  ∃ s', @steps plain "02:00:00:00:00:01" session_in_stop s' ∧ main s' = AfterStop.
Proof.
  apply (@stop_can_always_return plain "02:00:00:00:00:01" session_in_stop
           run_into_stop). reflexivity.
Defined.

(** The prober's request for 10.0.0.2 is made of what the four conversions
    returned. *)
Lemma transmit_sends_what_the_conversions_return_witness :
  ∃ dst sha spa tpa,
    @mac_str_to_bytes plain "ff:ff:ff:ff:ff:ff" = Ok dst ∧
    @mac_str_to_bytes plain "02:00:00:00:00:01" = Ok sha ∧
    @IPv4Address_packed plain "0.0.0.0" = Ok spa ∧
    @IPv4Address_packed plain "10.0.0.2" = Ok tpa ∧
    probe_request_for_10_0_0_2 =
      dst ++ sha ++ [x08; x06; x00; x01; x08; x00; x06; x04; x00; x01] ++
      sha ++ spa ++ [x00; x00; x00; x00; x00; x00] ++ tpa ∧
    length probe_request_for_10_0_0_2 =
      (16 + length dst + 2 * length sha + length spa + length tpa)%nat.
Proof.
  apply (@transmit_sends_what_the_conversions_return plain "eth0" "10.0.0.2"
           "02:00:00:00:00:01" "0.0.0.0" "eth0" probe_request_for_10_0_0_2
           eq_refl).
Defined.

(** The two hosts of 10.0.0.0/30: the second request is the one for
    10.0.0.2. *)
Lemma probe_sends_the_requests_in_host_order_witness :
  ∃ host,
    ["10.0.0.1"; "10.0.0.2"] !! 1%nat = Some host ∧
    @transmit_arp_request_ipv4 plain "eth0" host "02:00:00:00:00:01" "0.0.0.0" =
      Ok (Send "eth0" probe_request_for_10_0_0_2).
Proof.
  destruct (@probe_sends_the_requests_in_host_order plain "eth0"
              "02:00:00:00:00:01" ["10.0.0.1"; "10.0.0.2"] 1%nat
              (Send "eth0" probe_request_for_10_0_0_2) eq_refl)
    as (host & Hl & Htx & _).
  exists host. split; [exact Hl|exact Htx].
Defined.

(** An IPv6 host among IPv4 ones: [IPv4Address] rejects its text. *)
Lemma probe_stops_at_the_first_failure_witness :
  ∃ sent,
    @probe_transmit plain "eth0" "02:00:00:00:00:01" ["10.0.0.1"; "fe80::1"; "10.0.0.2"] =
      (sent, Some ValueError) ∧
    length sent = 1%nat.
Proof.
  eexists.
  apply (@probe_stops_at_the_first_failure plain "eth0" "02:00:00:00:00:01"
           ["10.0.0.1"] "fe80::1" ["10.0.0.2"]); reflexivity.
Defined.
